(** * Grind: the question board's data pipeline and progress store

    A shallow embedding of [App] (the React component of the repository):
    the records it keeps, the filter/sort derivation of the displayed list,
    and the four operations on the saved progress (toggle, reset, export,
    import), followed by the properties the specification states about them.

    Modelling conventions.
    - JavaScript strings are [string], the characters of a text in order
      (a character outside ASCII by its UTF-8 bytes; whether one well-formed
      text occurs in another does not depend on the encoding).
    - An object used as a dictionary ([completedQuestions], the imported
      progress) is a [gmap string bool]: its own properties, in no
      particular order.  A lookup [obj[key]] that finds no own property
      goes on to [Object.prototype], as in the program: see [getProperty].
      An imported JSON value that is not an object of booleans is outside
      the model ([Record<string, boolean>] is the shape the program
      writes).
    - [localStorage] is a finite map from keys to texts; the program uses
      the key ['completedQuestions'].
    - The platform functions [JSON.parse], [JSON.stringify], [parseFloat],
      [localeCompare] and the [toLowerCase] of the search filter are
      parameters of the sections that use them; what a property needs of
      them is a hypothesis of its theorem.
    - [Math.round] and the division of the progress bar are computed on
      binary64 floats, as in the browser. *)

From Stdlib Require Import QArith Lqa.
From Stdlib Require Import Floats.PrimFloat Floats.FloatOps Floats.SpecFloat.
From Stdlib Require Import Uint63.
From stdpp Require Import gmap strings list sorting.

Local Open Scope string_scope.
Local Open Scope list_scope.
Local Open Scope stdpp_scope.

(** ** Records *)

(** [interface Question].  [completed] is optional in the interface because
    the rows delivered by the CSV parser lack it; every array handed to
    [setQuestions] has gone through a [map] that sets it.  The flag is a
    boolean, with one exception: a load or an import can store a member
    inherited from [Object.prototype] there (see [getProperty]).  The
    program reads the flag as a condition ([q.completed] in the count of
    completed records, [!q.completed] in a toggle), so the record keeps
    what a condition sees of it, [true] for such a member.  The one other
    reader is [JSON.stringify], which leaves a member that is a function
    out of the text it writes: what is stated below about a saved or an
    exported text is about records whose flags are booleans, as the
    interface types them. *)
Record Question := mkQuestion {
  Title : string;
  Difficulty : string;
  Frequency : string;
  Link : string;
  AcceptanceRate : string;
  Topics : string;
  completed : bool
}.

(** [{ ...q, completed: b }] *)
Definition withCompleted (q : Question) (b : bool) : Question :=
  {| Title := Title q; Difficulty := Difficulty q; Frequency := Frequency q;
     Link := Link q; AcceptanceRate := AcceptanceRate q; Topics := Topics q;
     completed := b |}.

(** The names of the members of [Object.prototype] in a browser.  Every
    object literal and every object returned by [JSON.parse] inherits
    them. *)
Definition Object_prototype : list string :=
  ["constructor"; "hasOwnProperty"; "isPrototypeOf"; "propertyIsEnumerable";
   "toLocaleString"; "toString"; "valueOf"; "__defineGetter__";
   "__defineSetter__"; "__lookupGetter__"; "__lookupSetter__"; "__proto__"].

(** What a lookup [obj[key]] on a progress object returns: the boolean of
    an own property; else the member of [Object.prototype] of that name (a
    function, or the prototype itself under "__proto__"); else
    [undefined]. *)
Inductive Value :=
  | Boolean (b : bool)
  | Inherited
  | Undefined.

(** [obj[key]] *)
Definition getProperty (obj : gmap string bool) (key : string) : Value :=
  match obj !! key with
  | Some b => Boolean b
  | None => if decide (key ∈ Object_prototype) then Inherited else Undefined
  end.

(** [v || false] as a condition reads it: [undefined] and [false] give
    [false], [true] gives [true], and an inherited member, which is an
    object, is returned as it is and counts as true. *)
Definition or_false (v : Value) : bool :=
  match v with
  | Boolean b => b
  | Inherited => true
  | Undefined => false
  end.

(** ** The state of the component *)

Record App := mkApp {
  questions : list Question;
  (** the browser's local storage *)
  localStorage : gmap string string;
  (** messages shown with [alert], oldest first *)
  alerts : list string
}.

(** The key under which the progress is saved. *)
Definition slot : string := "completedQuestions".

(** A page load starts with no questions; the storage outlives the page. *)
Definition initialApp (storage : gmap string string) : App :=
  {| questions := []; localStorage := storage; alerts := [] |}.

(** [qs.reduce((acc, q) => ({ ...acc, [q.Title]: q.completed }), {})] *)
Definition completedQuestions (qs : list Question) : gmap string bool :=
  foldl (λ acc q, <[Title q := completed q]> acc) ∅ qs.

(** The callback of the [map] in [toggleQuestion]:
    [q.Title === title ? { ...q, completed: !q.completed } : q] *)
Definition flipIf (title : string) (q : Question) : Question :=
  if decide (Title q = title) then withCompleted q (negb (completed q)) else q.

(** [resetProgress]: the key is removed with [removeItem]. *)
Definition resetProgress (st : App) : App :=
  let updatedQuestions := (λ q, withCompleted q false) <$> questions st in
  {| questions := updatedQuestions;
     localStorage := delete slot (localStorage st);
     alerts := alerts st |}.

(** [localStorage.getItem('completedQuestions') || '{}']: an absent key
    and an empty text both give the text of the empty object. *)
Definition getItemOrEmptyObject (storage : gmap string string) : string :=
  match storage !! slot with
  | Some text => if decide (text = "") then "{}" else text
  | None => "{}"
  end.

(** The file offered by [downloadProgress]: its name and its text. *)
Record Download := mkDownload {
  download : string;
  blob : string
}.

Inductive Exception :=
  | SyntaxError.

Section Platform.
(** [JSON.parse], which throws on a text that is not JSON, and
    [JSON.stringify(m)] and [JSON.stringify(m, null, 2)] on a progress
    object. *)
Variable JSON_parse : string → Exception + gmap string bool.
Variable JSON_stringify : gmap string bool → string.
Variable JSON_stringify_indented : gmap string bool → string.

(** The [complete] callback of the CSV parse at start-up: the saved progress
    is read from the storage and merged into the parsed rows, whose own
    [completed] is overwritten.  An exception of [JSON.parse] leaves the
    callback before any state is set. *)
Definition loadQuestions (rows : list Question) (st : App) : App :=
  match JSON_parse (getItemOrEmptyObject (localStorage st)) with
  | inr saved =>
      let questionsWithStatus :=
        (λ q, withCompleted q (or_false (getProperty saved (Title q))))
          <$> rows in
      {| questions := questionsWithStatus;
         localStorage := localStorage st;
         alerts := alerts st |}
  | inl _ => st
  end.

(** [toggleQuestion] *)
Definition toggleQuestion (title : string) (st : App) : App :=
  let updatedQuestions := flipIf title <$> questions st in
  {| questions := updatedQuestions;
     localStorage :=
       <[slot := JSON_stringify (completedQuestions updatedQuestions)]>
         (localStorage st);
     alerts := alerts st |}.

(** [downloadProgress]: the progress object is rebuilt from the records. *)
Definition downloadProgress (st : App) : Download :=
  {| download := "progress.json";
     blob := JSON_stringify_indented (completedQuestions (questions st)) |}.

(** [importProgress], with the file reader's [onload] inlined.  [file] is
    the text of [e.target.files?.[0]]: [None] when no file was chosen. *)
Definition importProgress (file : option string) (st : App) : App :=
  match file with
  | None => st
  | Some text =>
      match JSON_parse text with
      | inr imported =>
          let updatedQuestions :=
            (λ q, withCompleted q (or_false (getProperty imported (Title q))))
              <$> questions st in
          {| questions := updatedQuestions;
             localStorage := <[slot := JSON_stringify imported]> (localStorage st);
             alerts := alerts st |}
      | inl _ =>
          {| questions := questions st;
             localStorage := localStorage st;
             alerts := alerts st ++ ["Invalid progress file."] |}
      end
  end.
End Platform.

(** ** The progress bar *)

(** The number of a length or a count (exact below 2^53; a JavaScript array
    has fewer than 2^32 elements). *)
Definition Number_of_nat (n : nat) : float :=
  PrimFloat.of_uint63 (Uint63.of_Z (Z.of_nat n)).

(** The float of an integer of magnitude at most 2^53, [-0] for a zero that
    comes from a negative argument. *)
Definition float_of_rounded (negative : bool) (r : Z) : float :=
  let a := PrimFloat.of_uint63 (Uint63.of_Z (Z.abs r)) in
  if (r <? 0)%Z || ((r =? 0)%Z && negative) then PrimFloat.opp a else a.

(** [Math.round]: the integer closest to [x], the larger one on a tie;
    zeros, infinities and NaN are returned as they are.  A finite float is
    [±m * 2^e]; with [e >= 0] it is an integer already, and otherwise the
    result is [floor ((±2m + 2^k) / 2^(k+1))] for [k = -e], computed on
    integers. *)
Definition Math_round (x : float) : float :=
  match Prim2SF x with
  | S754_finite s m e =>
      if (0 <=? e)%Z then x
      else
        let k := (- e)%Z in
        let n := if s then Z.neg m else Z.pos m in
        float_of_rounded s ((2 * n + 2 ^ k) / 2 ^ (k + 1))%Z
  | _ => x
  end.

(** [progress], the percentage shown under the title. *)
Definition progress (qs : list Question) : float :=
  if (0 <? length qs)%nat
  then Math_round
         (Number_of_nat (length (filter (λ q, completed q) qs))
            / Number_of_nat (length qs) * 100)%float
  else 0%float.

(** ** Strings *)

(** Lower-casing of one character: the letters [A]..[Z] move to [a]..[z]. *)
Definition lowerChar (c : Ascii.ascii) : Ascii.ascii :=
  let n := Ascii.nat_of_ascii c in
  if (65 <=? n)%nat && (n <=? 90)%nat then Ascii.ascii_of_nat (n + 32) else c.

(** [s.toLowerCase()] on ASCII text, where the builtin folds the letters
    character by character.  [getNormalizedDifficulty] compares the result
    with three ASCII words; the search filter, which lower-cases arbitrary
    titles and search terms, takes the builtin as a parameter. *)
Fixpoint toLowerCase (s : string) : string :=
  match s with
  | EmptyString => EmptyString
  | String c s' => String (lowerChar c) (toLowerCase s')
  end.

(** ASCII text: every character code is below 128. *)
Fixpoint isAscii (s : string) : bool :=
  match s with
  | EmptyString => true
  | String c s' => (Ascii.nat_of_ascii c <? 128)%nat && isAscii s'
  end.

(** What the properties of the search need of the builtin: on ASCII text it
    is the folding of the letters [A]..[Z] above.  (On other text the
    builtin follows the Unicode case mappings, some of which depend on the
    neighbours of a letter.) *)
Definition foldsAscii (lower : string → string) : Prop :=
  ∀ s : string, isAscii s = true → lower s = toLowerCase s.

(** [s.startsWith(needle)] *)
Fixpoint startsWith (s needle : string) {struct needle} : bool :=
  match needle, s with
  | EmptyString, _ => true
  | String _ _, EmptyString => false
  | String a needle', String b s' =>
      if decide (a = b) then startsWith s' needle' else false
  end.

(** [s.includes(needle)]: [needle] starts at some position of [s]. *)
Fixpoint includes (s needle : string) : bool :=
  startsWith s needle ||
  match s with
  | EmptyString => false
  | String _ s' => includes s' needle
  end.

(** White space removed by [trim] (the ASCII part of it). *)
Definition isWhitespace (c : Ascii.ascii) : bool :=
  let n := Ascii.nat_of_ascii c in
  ((9 <=? n)%nat && (n <=? 13)%nat) || (n =? 32)%nat.

Fixpoint trimStart (s : string) : string :=
  match s with
  | EmptyString => EmptyString
  | String c s' => if isWhitespace c then trimStart s' else s
  end.

Fixpoint trimEnd (s : string) : string :=
  match s with
  | EmptyString => EmptyString
  | String c s' =>
      match trimEnd s' with
      | EmptyString => if isWhitespace c then EmptyString else String c EmptyString
      | rest => String c rest
      end
  end.

(** [s.trim()] *)
Definition trim (s : string) : string := trimEnd (trimStart s).

(** [getNormalizedDifficulty], which chooses the badge of a row. *)
Definition getNormalizedDifficulty (difficulty : string) : string :=
  if decide (difficulty = "") then ""
  else
    let d := toLowerCase (trim difficulty) in
    if decide (d = "easy") then "Easy"
    else if decide (d = "medium") then "Medium"
    else if decide (d = "hard") then "Hard"
    else difficulty.

(** ** Numbers of the sort comparator *)

(** A JavaScript number is a binary64 float.  The sort below only looks at
    the sign of a difference, and the rounded difference of two floats has
    the sign of the exact one (subtraction underflows gradually and an
    overflow keeps the sign), so a number is modelled by its exact value: a
    rational, an infinity, or NaN. *)
Inductive Number :=
  | NaN
  | Infinity (negative : bool)
  | Finite (q : Q).

(** [x - y] *)
Definition minus (x y : Number) : Number :=
  match x, y with
  | NaN, _ | _, NaN => NaN
  | Finite a, Finite b => Finite (a - b)
  | Finite _, Infinity s => Infinity (negb s)
  | Infinity s, Finite _ => Infinity s
  | Infinity s, Infinity s' => if Bool.eqb s s' then NaN else Infinity s
  end.

(** [v > 0]; false for NaN. *)
Definition isPositive (v : Number) : bool :=
  match v with
  | NaN => false
  | Infinity negative => negb negative
  | Finite q => negb (Qle_bool q 0)
  end.

(** [x < y], read off the sign of [y - x] as the comparator does. *)
Definition ltNumber (x y : Number) : Prop := isPositive (minus y x) = true.

(** ** [Array.prototype.sort] *)

(** The language requires the sort to be stable and, for a consistent
    comparator, to order the elements by it; which calls are made is left to
    the engine.  The model is the stable insertion sort: an element moves
    behind another one only when the comparator returns a positive number
    for the pair (a NaN result counts as zero).  For a consistent
    comparator that is the list every conforming engine returns.  For an
    inconsistent one (a single frequency that is not a number among
    numeric ones is enough) the order is the engine's own, and the model
    shares with it only what holds of every rearrangement of the list. *)
Section Sort.
Context {A : Type} (comparefn : A → A → Number).

Fixpoint insertSorted (x : A) (l : list A) : list A :=
  match l with
  | [] => [x]
  | y :: l' =>
      if isPositive (comparefn x y) then y :: insertSorted x l' else x :: l
  end.

Definition sort (l : list A) : list A := foldr insertSorted [] l.

(** The comparator orders [x] strictly before [y]. *)
Definition precedes (x y : A) : Prop := isPositive (comparefn y x) = true.

(** The comparator orders the two elements one way or the other. *)
Definition comparable (x y : A) : Prop := precedes x y ∨ precedes y x.
End Sort.

(** ** The displayed list *)

Inductive Direction := asc | desc.

(** [keyof Question] *)
Inductive Key :=
  | KTitle | KDifficulty | KFrequency | KLink | KAcceptanceRate | KTopics
  | KCompleted.

Record SortConfig := mkSortConfig {
  key : Key;
  direction : Direction
}.

(** The initial [sortConfig]. *)
Definition defaultSort : SortConfig := {| key := KFrequency; direction := desc |}.

(** The value of [q[key]]: a string, or the boolean of [completed]. *)
Inductive FieldValue :=
  | StringValue (s : string)
  | BooleanValue (b : bool).

Definition field (k : Key) (q : Question) : FieldValue :=
  match k with
  | KTitle => StringValue (Title q)
  | KDifficulty => StringValue (Difficulty q)
  | KFrequency => StringValue (Frequency q)
  | KLink => StringValue (Link q)
  | KAcceptanceRate => StringValue (AcceptanceRate q)
  | KTopics => StringValue (Topics q)
  | KCompleted => BooleanValue (completed q)
  end.

Section Derivation.
(** [String.prototype.toLowerCase], [parseFloat], and [a.localeCompare(b)]
    (negative, zero or positive). *)
Variable String_toLowerCase : string → string.
Variable parseFloat : string → Number.
Variable localeCompare : string → string → Z.

(** The comparator passed to [filtered.sort]. *)
Definition compareQuestions (sortConfig : SortConfig) (a b : Question) : Number :=
  match key sortConfig with
  | KFrequency =>
      match direction sortConfig with
      | asc => minus (parseFloat (Frequency a)) (parseFloat (Frequency b))
      | desc => minus (parseFloat (Frequency b)) (parseFloat (Frequency a))
      end
  | k =>
      match field k a, field k b with
      | StringValue aValue, StringValue bValue =>
          match direction sortConfig with
          | asc => Finite (inject_Z (localeCompare aValue bValue))
          | desc => Finite (inject_Z (localeCompare bValue aValue))
          end
      | _, _ => Finite 0
      end
  end.

(** The callback of the search filter. *)
Definition matchesSearch (searchTerm : string) (q : Question) : bool :=
  includes (String_toLowerCase (Title q)) (String_toLowerCase searchTerm)
  || includes (String_toLowerCase (Topics q)) (String_toLowerCase searchTerm).

(** The effect that recomputes [filteredQuestions] from the questions,
    the search term, the difficulty filter and the sort configuration. *)
Definition filteredQuestions (qs : list Question)
    (searchTerm difficultyFilter : string) (sortConfig : SortConfig)
    : list Question :=
  let filtered := qs in
  let filtered :=
    if decide (searchTerm ≠ "")
    then filter (λ q, matchesSearch searchTerm q) filtered
    else filtered in
  let filtered :=
    if decide (difficultyFilter ≠ "all")
    then filter (λ q, Difficulty q = difficultyFilter) filtered
    else filtered in
  sort (compareQuestions sortConfig) filtered.
End Derivation.

(** ** Readings of the specification *)

(** "Flips the completed flag of exactly one record matching the identifier
    (first match if duplicates exist)": the first record with the title is
    flipped, every other record stays. *)
Fixpoint flipFirst (title : string) (qs : list Question) : list Question :=
  match qs with
  | [] => []
  | q :: qs' =>
      if decide (Title q = title)
      then withCompleted q (negb (completed q)) :: qs'
      else q :: flipFirst title qs'
  end.

(** "Case-insensitive": two characters are the same letter when they are
    equal, or when one is a capital letter [A]..[Z] (codes 65 to 90) and
    the other one the small letter of the same name, 32 codes higher. *)
Definition sameLetter (a b : Ascii.ascii) : bool :=
  let m := Ascii.nat_of_ascii a in
  let n := Ascii.nat_of_ascii b in
  (m =? n)%nat
  || ((65 <=? m)%nat && (m <=? 90)%nat && (n =? m + 32)%nat)
  || ((65 <=? n)%nat && (n <=? 90)%nat && (m =? n + 32)%nat).

(** Two texts are the same up to the case of their letters. *)
Fixpoint sameIgnoringCase (s t : string) : bool :=
  match s, t with
  | EmptyString, EmptyString => true
  | String a s', String b t' => sameLetter a b && sameIgnoringCase s' t'
  | _, _ => false
  end.

(** "Contains [s] as a case-insensitive substring": some stretch of the text
    is [s] up to the case of its letters. *)
Definition containsIgnoringCase (text s : string) : Prop :=
  ∃ before middle after,
    text = before +:+ middle +:+ after ∧ sameIgnoringCase middle s = true.



(** "Numeric" frequencies are those [parseFloat] reads as a number, and two
    numbers are the same value when they are equal as rationals or are the
    same infinity. *)
Definition sameNumber (x y : Number) : bool :=
  match x, y with
  | Finite a, Finite b => Qeq_bool a b
  | Infinity s, Infinity s' => Bool.eqb s s'
  | _, _ => false
  end.

Definition isNumeric (x : Number) : bool :=
  match x with NaN => false | _ => true end.

(** All frequencies are numeric and no two records share a value. *)
Fixpoint distinctNumericFrequencies (parseFloat : string → Number)
    (qs : list Question) : bool :=
  match qs with
  | [] => true
  | q :: qs' =>
      isNumeric (parseFloat (Frequency q))
      && forallb (λ q', negb (sameNumber (parseFloat (Frequency q))
                                         (parseFloat (Frequency q')))) qs'
      && distinctNumericFrequencies parseFloat qs'
  end.

(** ** Instances of the platform functions and sample data *)

(** A reader and two writers of JSON for progress objects whose keys need
    no escape.  The reader accepts one object whose values are [true] or
    [false], with JSON white space between the tokens, and throws on
    every other text. *)
Inductive ReaderState :=
  | BeforeObject
  | BeforeFirstKey
  | BeforeKey
  | InKey (key : string)
  | AfterKey (key : string)
  | BeforeValue (key : string)
  | InLiteral (key : string) (value : bool) (rest : string)
  | AfterValue
  | AfterObject.

Definition isJsonSpace (n : nat) : bool :=
  (n =? 32)%nat || (n =? 9)%nat || (n =? 10)%nat || (n =? 13)%nat.

(** One character of the text; [None] is a syntax error.  The codes are
    those of the double quote (34), the comma (44), the colon (58), the
    backslash (92), [f] (102), [t] (116) and the braces (123, 125). *)
Definition readChar (m : gmap string bool) (state : ReaderState)
    (c : Ascii.ascii) : option (gmap string bool * ReaderState) :=
  let n := Ascii.nat_of_ascii c in
  match state with
  | BeforeObject =>
      if isJsonSpace n then Some (m, BeforeObject)
      else if (n =? 123)%nat then Some (m, BeforeFirstKey) else None
  | BeforeFirstKey =>
      if isJsonSpace n then Some (m, BeforeFirstKey)
      else if (n =? 125)%nat then Some (m, AfterObject)
      else if (n =? 34)%nat then Some (m, InKey "") else None
  | BeforeKey =>
      if isJsonSpace n then Some (m, BeforeKey)
      else if (n =? 34)%nat then Some (m, InKey "") else None
  | InKey key =>
      if (n =? 34)%nat then Some (m, AfterKey key)
      else if (n =? 92)%nat || (n <? 32)%nat then None
      else Some (m, InKey (key +:+ String c ""))
  | AfterKey key =>
      if isJsonSpace n then Some (m, AfterKey key)
      else if (n =? 58)%nat then Some (m, BeforeValue key) else None
  | BeforeValue key =>
      if isJsonSpace n then Some (m, BeforeValue key)
      else if (n =? 116)%nat then Some (m, InLiteral key true "rue")
      else if (n =? 102)%nat then Some (m, InLiteral key false "alse")
      else None
  | InLiteral key value rest =>
      match rest with
      | String expected EmptyString =>
          if decide (c = expected)
          then Some (<[key := value]> m, AfterValue) else None
      | String expected rest' =>
          if decide (c = expected)
          then Some (m, InLiteral key value rest') else None
      | EmptyString => None
      end
  | AfterValue =>
      if isJsonSpace n then Some (m, AfterValue)
      else if (n =? 44)%nat then Some (m, BeforeKey)
      else if (n =? 125)%nat then Some (m, AfterObject) else None
  | AfterObject =>
      if isJsonSpace n then Some (m, AfterObject) else None
  end.

Fixpoint readText (text : string) (m : gmap string bool)
    (state : ReaderState) : option (gmap string bool) :=
  match text with
  | EmptyString =>
      match state with
      | AfterObject => Some m
      | _ => None
      end
  | String c text' =>
      match readChar m state c with
      | Some (m', state') => readText text' m' state'
      | None => None
      end
  end.

Definition jsonParse (text : string) : Exception + gmap string bool :=
  match readText text ∅ BeforeObject with
  | Some m => inr m
  | None => inl SyntaxError
  end.

Definition doubleQuote : string := String (Ascii.ascii_of_nat 34) "".
Definition lineFeed : string := String (Ascii.ascii_of_nat 10) "".

Definition writeEntry (separator : string) (entry : string * bool) : string :=
  doubleQuote +:+ entry.1 +:+ doubleQuote +:+ separator
  +:+ (if entry.2 then "true" else "false").

Definition jsonStringify (m : gmap string bool) : string :=
  "{" +:+ String.concat "," (writeEntry ":" <$> map_to_list m) +:+ "}".

Definition jsonStringifyIndented (m : gmap string bool) : string :=
  match map_to_list m with
  | [] => "{}"
  | entries =>
      "{" +:+ lineFeed
      +:+ String.concat ("," +:+ lineFeed)
            ((λ entry, "  " +:+ writeEntry ": " entry) <$> entries)
      +:+ lineFeed +:+ "}"
  end.

(** An instance of [parseFloat] for plain decimals (digits, optionally a
    point and more digits, as in the Frequency column); NaN on anything
    else. *)
Definition digitValue (c : Ascii.ascii) : option Z :=
  let n := Ascii.nat_of_ascii c in
  if (48 <=? n)%nat && (n <=? 57)%nat then Some (Z.of_nat (n - 48)) else None.

Fixpoint readDecimal (s : string) (seenPoint seenDigit : bool)
    (numerator : Z) (denominator : positive) : Number :=
  match s with
  | EmptyString => if seenDigit then Finite (numerator # denominator) else NaN
  | String c s' =>
      if (Ascii.nat_of_ascii c =? 46)%nat then
        if seenPoint then NaN
        else readDecimal s' true seenDigit numerator denominator
      else
        match digitValue c with
        | Some d =>
            readDecimal s' seenPoint true (10 * numerator + d)%Z
              (if seenPoint then (10 * denominator)%positive else denominator)
        | None => NaN
        end
  end.

Definition parseDecimal (s : string) : Number := readDecimal s false false 0 1.

(** An instance of [localeCompare]: the order of the character codes. *)
Definition compareCodes (a b : string) : Z :=
  match String.compare a b with
  | Lt => (-1)%Z
  | Eq => 0%Z
  | Gt => 1%Z
  end.

(** An instance of [toLowerCase] for ASCII text and Greek capital letters,
    which in UTF-8 are the byte 206 followed by a byte from 145 to 169.
    Alpha to omicron (145..159) move to 206 and the byte 32 higher, pi to
    omega (160..169) to 207 and the byte 32 lower, and a capital sigma (206
    163) that follows a letter and is followed by none moves to the final
    small sigma (207 130) in place of the small sigma (207 131): the rule
    [Final_Sigma] of the Unicode case mappings. *)
Definition isLetterCode (n : nat) : bool :=
  ((65 <=? n)%nat && (n <=? 90)%nat) || ((97 <=? n)%nat && (n <=? 122)%nat)
  || (128 <=? n)%nat.

Definition startsWithLetter (s : string) : bool :=
  match s with
  | EmptyString => false
  | String c _ => isLetterCode (Ascii.nat_of_ascii c)
  end.

Definition twoBytes (m n : nat) (rest : string) : string :=
  String (Ascii.ascii_of_nat m) (String (Ascii.ascii_of_nat n) rest).

Fixpoint lowerCaseAfter (afterLetter : bool) (s : string) : string :=
  match s with
  | EmptyString => EmptyString
  | String a rest =>
      let m := Ascii.nat_of_ascii a in
      match rest with
      | EmptyString => String (lowerChar a) EmptyString
      | String b rest' =>
          let n := Ascii.nat_of_ascii b in
          if (m =? 206)%nat && (145 <=? n)%nat && (n <=? 169)%nat then
            if (n =? 163)%nat && afterLetter && negb (startsWithLetter rest')
            then twoBytes 207 130 (lowerCaseAfter true rest')
            else if (n <? 160)%nat
                 then twoBytes 206 (n + 32) (lowerCaseAfter true rest')
                 else twoBytes 207 (n - 32) (lowerCaseAfter true rest')
          else String (lowerChar a) (lowerCaseAfter (isLetterCode m) rest)
      end
  end.

Definition lowerCaseGreek (s : string) : string := lowerCaseAfter false s.

(** The two records of the specification's scenario. *)
Definition twoSum : Question :=
  {| Title := "Two Sum"; Difficulty := "Easy"; Frequency := "85.5";
     Link := "https://leetcode.com/problems/two-sum";
     AcceptanceRate := "49.1%"; Topics := "Array, Hash Table";
     completed := false |}.

Definition mergeKLists : Question :=
  {| Title := "Merge K Lists"; Difficulty := "Hard"; Frequency := "42.1";
     Link := "https://leetcode.com/problems/merge-k-sorted-lists";
     AcceptanceRate := "47.6%"; Topics := "Linked List, Heap";
     completed := false |}.

(** The application just after its first load of the scenario's data:
    nothing is completed and nothing has been saved. *)
Definition freshApp : App :=
  {| questions := [twoSum; mergeKLists]; localStorage := ∅; alerts := [] |}.

(** A data set in which one title occurs twice. *)
Definition twoSumAgain : Question :=
  {| Title := "Two Sum"; Difficulty := "Easy"; Frequency := "12.0";
     Link := "https://leetcode.com/problems/two-sum-ii";
     AcceptanceRate := "60.0%"; Topics := "Array";
     completed := false |}.

Definition duplicatedApp : App :=
  {| questions := [twoSum; twoSumAgain]; localStorage := ∅; alerts := [] |}.

(** A row whose difficulty is spelled in lower case. *)
Definition lowerCaseEasy : Question :=
  {| Title := "Valid Anagram"; Difficulty := "easy"; Frequency := "30.2";
     Link := "https://leetcode.com/problems/valid-anagram";
     AcceptanceRate := "62.3%"; Topics := "String, Sorting";
     completed := false |}.

(** A row whose title is the name of a member of [Object.prototype]. *)
Definition constructorRow : Question :=
  {| Title := "constructor"; Difficulty := "Medium"; Frequency := "17.3";
     Link := "https://leetcode.com/problems/constructor";
     AcceptanceRate := "55.0%"; Topics := "Design";
     completed := false |}.

(** A row whose title is a Greek word in capitals that ends in a sigma, and
    the capital sigma alone. *)
Definition odos : Question :=
  {| Title := "ΟΔΟΣ"; Difficulty := "Easy"; Frequency := "21.0";
     Link := "https://leetcode.com/problems/odos";
     AcceptanceRate := "40.0%"; Topics := "Graph";
     completed := false |}.

Definition capitalSigma : string := "Σ".

(** [done] completed records followed by [total - done] open ones. *)
Definition sampleProgress (done total : nat) : list Question :=
  replicate done (withCompleted twoSum true)
  ++ replicate (total - done) mergeKLists.

(** ** The rest of the component *)

#[global] Instance Key_eq_dec : EqDecision Key.
Proof. solve_decision. Defined.

#[global] Instance Direction_eq_dec : EqDecision Direction.
Proof. solve_decision. Defined.

(** [handleSort], the click on a column header, as the function it passes
    to [setSortConfig]. *)
Definition handleSort (k : Key) (current : SortConfig) : SortConfig :=
  {| key := k;
     direction :=
       if decide (key current = k ∧ direction current = asc) then desc else asc |}.

(** The difficulty cell of a row: one of the three coloured badges, or the
    field as it is written. *)
Inductive Badge :=
  | EASY
  | MEDIUM
  | HARD
  | PlainDifficulty (text : string).

Definition difficultyBadge (q : Question) : Badge :=
  let norm := getNormalizedDifficulty (Difficulty q) in
  if decide (norm = "Easy") then EASY
  else if decide (norm = "Medium") then MEDIUM
  else if decide (norm = "Hard") then HARD
  else PlainDifficulty (Difficulty q).

(** The records that pass the search and the difficulty filter, in the
    order of the record set: what the effect hands to [sort]. *)
Definition selectedQuestions (String_toLowerCase : string → string)
    (qs : list Question) (searchTerm difficultyFilter : string)
    : list Question :=
  filter (λ q, difficultyFilter = "all" ∨ Difficulty q = difficultyFilter)
    (filter (λ q, searchTerm = ""
                  ∨ matchesSearch String_toLowerCase searchTerm q = true) qs).

(** The whole numbers from 0 to 100. *)
Definition wholePercents : list float :=
  Eval vm_compute in (λ k, Number_of_nat k) <$> seq 0 101.

Definition isWholePercent (p : float) : bool :=
  existsb (PrimFloat.eqb p) wholePercents.

(** The percentage for a count and a positive total given as integers. *)
Definition percentageOf (count total : Z) : float :=
  Math_round
    (PrimFloat.of_uint63 (Uint63.of_Z count)
       / PrimFloat.of_uint63 (Uint63.of_Z total) * 100)%float.

(** The percentage [p] is the whole number nearest to [100 count / total],
    or the one below it when the quotient lies halfway between the two. *)
Definition nearestChecked (p : float) (count total : Z) : bool :=
  let r := ((200 * count + total) / (2 * total))%Z in
  PrimFloat.eqb p (PrimFloat.of_uint63 (Uint63.of_Z r))
  || (((200 * count) mod (2 * total) =? total)%Z
      && PrimFloat.eqb p (PrimFloat.of_uint63 (Uint63.of_Z (r - 1)))).

(** The table behind the bounds on the percentage.  For one total, the
    counts from [count] on are visited, [fuel] of them: each percentage is
    a whole number from 0 to 100, the nearest one to the exact quotient up
    to the halfway cases, and not less than the one before, and the last
    one is 100. *)
Fixpoint countsChecked (fuel : nat) (count total : Z) (previous : float)
    : bool :=
  match fuel with
  | O => PrimFloat.eqb previous 100
  | S fuel' =>
      let p := percentageOf count total in
      isWholePercent p && nearestChecked p count total
      && PrimFloat.leb previous p
      && countsChecked fuel' (count + 1) total p
  end.

(** The counts 0 .. [total] of one total, the first percentage being 0. *)
Definition totalChecked (total : nat) : bool :=
  PrimFloat.eqb (percentageOf 0 (Z.of_nat total)) 0
  && countsChecked (S total) 0 (Z.of_nat total) 0.

(** Records with the same title carry the same flag. *)
Definition consistentFlags (qs : list Question) : Prop :=
  ∀ q q' : Question, q ∈ qs → q' ∈ qs → Title q = Title q' →
    completed q = completed q'.

(** The rows of two lists are the same up to their flags. *)
Definition sameRows (qs qs' : list Question) : Prop :=
  (λ q, withCompleted q false) <$> qs = (λ q, withCompleted q false) <$> qs'.

(** What happens to the component: the CSV has been parsed, a checkbox is
    clicked, the reset or the download button is pressed, a file is chosen
    in the import dialog. *)
Inductive Event :=
  | Loaded (rows : list Question)
  | Toggled (title : string)
  | ResetPressed
  | DownloadPressed
  | FileChosen (file : option string).

Section Runs.
Variable JSON_parse : string → Exception + gmap string bool.
Variable JSON_stringify : gmap string bool → string.

Definition step (st : App) (event : Event) : App :=
  match event with
  | Loaded rows => loadQuestions JSON_parse rows st
  | Toggled title => toggleQuestion JSON_stringify title st
  | ResetPressed => resetProgress st
  | DownloadPressed => st
  | FileChosen file => importProgress JSON_parse JSON_stringify file st
  end.

(** The state after a sequence of events, the first one first. *)
Definition run (events : list Event) (st : App) : App := foldl step st events.
End Runs.

(** A progress file with an entry for a title that is not in the scenario's
    data. *)
Definition foreignFile : string :=
  jsonStringifyIndented
    (<["Two Sum" := true]> {[ "Retired Question" := true ]}).

(** A history of the component: the first load, then some clicks. *)
Definition sampleHistory : list Event :=
  [Loaded [twoSum; mergeKLists]; Toggled "Merge K Lists"; ResetPressed;
   Toggled "Merge K Lists"; DownloadPressed].

(** ** Records and the progress object *)

Lemma withCompleted_same (q : Question) : withCompleted q (completed q) = q.
Proof. by destruct q. Qed.


Lemma completedQuestions_snoc (qs : list Question) (q : Question) :
  completedQuestions (qs ++ [q])
  = <[Title q := completed q]> (completedQuestions qs).
Proof. unfold completedQuestions. by rewrite foldl_app. Qed.

(** The entry of a title is the flag of the last record that carries it. *)
Lemma completedQuestions_lookup (qs : list Question) (k : string) :
  completedQuestions qs !! k
  = completed <$> last (filter (λ q, Title q = k) qs).
Proof.
  induction qs as [|q qs IH] using rev_ind; [done|].
  rewrite completedQuestions_snoc, filter_app.
  destruct (decide (Title q = k)) as [Heq|Hne].
  - rewrite (filter_cons_True _ q []) by done.
    rewrite filter_nil, last_snoc, Heq. apply lookup_insert_eq.
  - rewrite (filter_cons_False _ q []) by done.
    rewrite filter_nil, app_nil_r, lookup_insert_ne by done. apply IH.
Qed.

(** The keys of the progress object are the titles of the records. *)
Lemma completedQuestions_dom (qs : list Question) :
  dom (completedQuestions qs) = list_to_set (Title <$> qs).
Proof.
  induction qs as [|q qs IH] using rev_ind; [done|].
  rewrite completedQuestions_snoc, dom_insert_L, IH, fmap_app.
  rewrite list_to_set_app_L. simpl.
  rewrite (right_id_L ∅ (∪)). apply (comm_L (∪)).
Qed.

(** The title of every record has an entry. *)
Lemma completedQuestions_is_Some (qs : list Question) (q : Question) :
  q ∈ qs → is_Some (completedQuestions qs !! Title q).
Proof.
  intros Hq. apply elem_of_dom. rewrite completedQuestions_dom.
  apply elem_of_list_to_set, list_elem_of_fmap. eauto.
Qed.

(** When every flag is a function of the title, so is the progress object. *)
Lemma completedQuestions_by_title (f : string → bool) (qs : list Question)
    (k : string) :
  completedQuestions ((λ q, withCompleted q (f (Title q))) <$> qs) !! k
  = if decide (k ∈ Title <$> qs) then Some (f k) else None.
Proof.
  induction qs as [|q qs IH] using rev_ind.
  { destruct (decide (k ∈ Title <$> [])) as [Hin|_]; [|done].
    by apply elem_of_nil in Hin. }
  rewrite !fmap_app. simpl. rewrite completedQuestions_snoc. simpl.
  destruct (decide (Title q = k)) as [->|Hne].
  - rewrite lookup_insert_eq, decide_True; [done|].
    apply elem_of_app. right. apply list_elem_of_singleton. done.
  - rewrite lookup_insert_ne, IH by done.
    destruct (decide (k ∈ Title <$> qs)) as [Hin|Hnin].
    + rewrite decide_True; [done|]. apply elem_of_app. by left.
    + rewrite decide_False; [done|].
      intros [?|Hk%list_elem_of_singleton]%elem_of_app; congruence.
Qed.

(** With pairwise distinct titles each record finds its own flag. *)
Lemma completedQuestions_own_flag (qs : list Question) (q : Question) :
  NoDup (Title <$> qs) → q ∈ qs →
  completedQuestions qs !! Title q = Some (completed q).
Proof.
  induction qs as [|q' qs IH] using rev_ind; [by intros _ ?%elem_of_nil|].
  rewrite fmap_app, completedQuestions_snoc. simpl.
  intros [Hqs [Hfresh _]]%NoDup_app [Hin| ->%list_elem_of_singleton]%elem_of_app.
  - rewrite lookup_insert_ne; [by apply IH|].
    intros Heq. apply (Hfresh (Title q)).
    + apply list_elem_of_fmap. eauto.
    + rewrite <- Heq. apply list_elem_of_singleton. done.
  - apply lookup_insert_eq.
Qed.

(** ** Toggle *)

Lemma flipIf_Title (title : string) (q : Question) :
  Title (flipIf title q) = Title q.
Proof. unfold flipIf. by case_decide. Qed.


Lemma flipIf_titles (title : string) (qs : list Question) :
  Title <$> (flipIf title <$> qs) = Title <$> qs.
Proof.
  rewrite <- list_fmap_compose.
  apply list_fmap_ext. intros _ q _. apply flipIf_Title.
Qed.

(** Where no record carries the title nothing is flipped. *)
Lemma flipIf_absent (title : string) (qs : list Question) :
  filter (λ q, Title q = title) qs = [] → flipIf title <$> qs = qs.
Proof.
  induction qs as [|q qs IH]; [done|].
  destruct (decide (Title q = title)) as [Heq|Hne].
  - by rewrite filter_cons_True.
  - rewrite filter_cons_False by done. intros Hnil.
    rewrite fmap_cons, IH by done. unfold flipIf. by rewrite decide_False.
Qed.

(** Where at most one record carries the title, flipping every match is
    flipping the first one. *)
Lemma flipIf_at_most_one (title : string) (qs : list Question) :
  (length (filter (λ q, Title q = title) qs) ≤ 1)%nat →
  flipIf title <$> qs = flipFirst title qs.
Proof.
  induction qs as [|q qs IH]; [done|].
  rewrite fmap_cons. simpl. unfold flipIf at 1.
  destruct (decide (Title q = title)) as [Heq|Hne].
  - rewrite filter_cons_True by done. simpl. intros Hlen.
    rewrite flipIf_absent; [done|].
    apply length_zero_iff_nil. lia.
  - rewrite filter_cons_False by done. intros Hlen. by rewrite IH.
Qed.


(** Flags recomputed from the titles do not depend on the flags the rows
    had before. *)
Lemma recompleted_same_rows (f : string → bool) (qs qs2 : list Question) :
  (λ q, withCompleted q false) <$> qs2 = (λ q, withCompleted q false) <$> qs →
  (λ q, withCompleted q (f (Title q))) <$> qs2
  = (λ q, withCompleted q (f (Title q))) <$> qs.
Proof.
  intros Hrows.
  assert (Hstep : ∀ l : list Question,
            (λ q, withCompleted q (f (Title q))) <$> l
            = (λ q, withCompleted q (f (Title q)))
                <$> ((λ q, withCompleted q false) <$> l)).
  { intros l. rewrite <- list_fmap_compose. by apply list_fmap_ext. }
  by rewrite (Hstep qs2), Hrows, <- Hstep.
Qed.

(** ** Lookups in a progress object *)

(** An own entry hides the prototype; a key without one is true exactly
    when it names a member of [Object.prototype]. *)
Lemma or_false_getProperty (obj : gmap string bool) (k : string) :
  or_false (getProperty obj k)
  = default (bool_decide (k ∈ Object_prototype)) (obj !! k).
Proof.
  unfold getProperty. destruct (obj !! k) as [b|]; [done|]. simpl.
  case_decide; [by rewrite bool_decide_eq_true_2|by rewrite bool_decide_eq_false_2].
Qed.

Lemma or_false_own (obj : gmap string bool) (k : string) (b : bool) :
  obj !! k = Some b → or_false (getProperty obj k) = b.
Proof. intros Hk. by rewrite or_false_getProperty, Hk. Qed.

Lemma or_false_empty (k : string) :
  or_false (getProperty ∅ k) = bool_decide (k ∈ Object_prototype).
Proof. by rewrite or_false_getProperty, lookup_empty. Qed.

(** ** The progress store *)

Section ProgressStore.
Context (JSON_parse : string → Exception + gmap string bool).
Context (JSON_stringify JSON_stringify_indented : gmap string bool → string).

Abbreviation loadQuestions := (loadQuestions JSON_parse).
Abbreviation toggleQuestion := (toggleQuestion JSON_stringify).
Abbreviation downloadProgress := (downloadProgress JSON_stringify_indented).
Abbreviation importProgress := (importProgress JSON_parse JSON_stringify).

Lemma toggleQuestion_questions (title : string) (st : App) :
  questions (toggleQuestion title st) = flipIf title <$> questions st.
Proof. done. Qed.

Lemma toggleQuestion_localStorage (title : string) (st : App) :
  localStorage (toggleQuestion title st)
  = <[slot := JSON_stringify
                (completedQuestions (questions (toggleQuestion title st)))]>
      (localStorage st).
Proof. done. Qed.

(** C1 (amended): [toggleQuestion title] flips the completed flag of every
    record whose title is [title] and leaves every other record as it is
    (so exactly one record, the first match, is flipped when the title
    occurs at most once); it then writes to the storage, under the key
    'completedQuestions', the text of the object {title -> completed}
    computed over the whole updated record set, in which a title carried
    by several records gets the flag of the last of them. *)
Theorem toggle_flips_every_match (title : string) (st : App) :
  let st' := toggleQuestion title st in
  length (questions st') = length (questions st)
  ∧ (∀ (i : nat) (q : Question), questions st !! i = Some q →
       questions st' !! i
       = Some (if decide (Title q = title)
               then withCompleted q (negb (completed q)) else q))
  ∧ ((length (filter (λ q, Title q = title) (questions st)) ≤ 1)%nat →
       questions st' = flipFirst title (questions st))
  ∧ localStorage st'
    = <[slot := JSON_stringify (completedQuestions (questions st'))]>
        (localStorage st)
  ∧ (∀ k : string,
       completedQuestions (questions st') !! k
       = completed <$> last (filter (λ q, Title q = k) (questions st'))).
Proof.
  intros st'. subst st'.
  rewrite toggleQuestion_localStorage, toggleQuestion_questions.
  split; [apply length_fmap|].
  split.
  { intros i q Hq. rewrite list_lookup_fmap, Hq. done. }
  split; [apply flipIf_at_most_one|].
  split; [done|].
  intros k. apply completedQuestions_lookup.
Qed.


(** A load that finds no saved text falls back to the empty object, in
    which every lookup goes on to the prototype. *)
Lemma loadQuestions_fresh (storage : gmap string string)
    (rows : list Question) :
  JSON_parse "{}" = inr ∅ →
  storage !! slot = None ∨ storage !! slot = Some "" →
  questions (loadQuestions rows (initialApp storage))
  = (λ q, withCompleted q (bool_decide (Title q ∈ Object_prototype))) <$> rows.
Proof.
  intros Hempty Hslot. unfold loadQuestions, getItemOrEmptyObject. simpl.
  destruct Hslot as [-> | ->]; simpl; rewrite Hempty; simpl;
    apply list_fmap_ext; intros _ q _; by rewrite or_false_empty.
Qed.

(** X20: [resetProgress] sets completed to false in every record (and
    changes nothing else in them) and removes the key 'completedQuestions'
    from the storage, which then holds no text under it, not even that of
    an empty or all-false object; the page load that follows is the
    first-ever load.  That load gives completed = false to every row whose
    title is not the name of a member of [Object.prototype]; a row with
    such a title ("constructor", "toString", ...) comes out of it
    completed, because [completedQuestions[q.Title] || false] finds the
    inherited member where the saved object has no entry.  ([JSON.parse] is
    assumed to read the text of the empty object, which the load falls
    back to.) *)
Theorem reset_then_reload (st : App) (rows : list Question) :
  JSON_parse "{}" = inr ∅ →
  let st' := resetProgress st in
  let reloaded := loadQuestions rows (initialApp (localStorage st')) in
  questions st' = (λ q, withCompleted q false) <$> questions st
  ∧ Forall (λ q, completed q = false) (questions st')
  ∧ localStorage st' = delete slot (localStorage st)
  ∧ localStorage st' !! slot = None
  ∧ questions reloaded = questions (loadQuestions rows (initialApp ∅))
  ∧ questions reloaded
    = (λ q, withCompleted q (bool_decide (Title q ∈ Object_prototype))) <$> rows
  ∧ (Forall (λ q, Title q ∉ Object_prototype) rows →
     questions reloaded = (λ q, withCompleted q false) <$> rows
     ∧ Forall (λ q, completed q = false) (questions reloaded))
  ∧ (∀ q : Question, q ∈ rows → Title q ∈ Object_prototype →
       withCompleted q true ∈ questions reloaded).
Proof.
  intros Hempty st' reloaded.
  assert (Hgone : localStorage st' !! slot = None) by apply lookup_delete_eq.
  assert (Hreloaded : questions reloaded
    = (λ q, withCompleted q (bool_decide (Title q ∈ Object_prototype))) <$> rows).
  { subst reloaded. apply loadQuestions_fresh; [done|by left]. }
  split; [done|].
  split; [apply Forall_fmap, Forall_true; done|].
  split; [done|]. split; [done|].
  split.
  { rewrite Hreloaded. symmetry.
    apply loadQuestions_fresh; [done|]. left. apply lookup_empty. }
  split; [done|]. split.
  - intros Hrows.
    assert (Hfalse : questions reloaded = (λ q, withCompleted q false) <$> rows).
    { rewrite Hreloaded. apply list_fmap_ext. intros i q Hq. simpl.
      rewrite bool_decide_eq_false_2; [done|].
      eapply Forall_forall in Hrows; [exact Hrows|].
      by eapply list_elem_of_lookup_2. }
    split; [done|]. rewrite Hfalse. apply Forall_fmap, Forall_true. done.
  - intros q Hq Hinherited. rewrite Hreloaded.
    apply list_elem_of_fmap. exists q. split; [|done].
    by rewrite bool_decide_eq_true_2.
Qed.

(** C6: when the text of the chosen file is not JSON, [importProgress]
    shows the alert "Invalid progress file." and changes neither the
    records nor the storage. *)
Theorem import_of_invalid_json (text : string) (e : Exception) (st : App) :
  JSON_parse text = inl e →
  let st' := importProgress (Some text) st in
  questions st' = questions st
  ∧ localStorage st' = localStorage st
  ∧ alerts st' = alerts st ++ ["Invalid progress file."].
Proof.
  intros Hparse st'. subst st'. unfold importProgress. rewrite Hparse. done.
Qed.

(** C7: importing the file produced by [downloadProgress], into the
    application that exported it or into one that holds the same rows with
    other flags (after a reset, say), stores under the key
    'completedQuestions' the text of exactly the exported object, gives
    every record the flag the exported object holds for its title, and a
    second export yields the same file again; with pairwise distinct
    titles the records are those of the exporting application.
    (The platform is assumed to read back what it writes: [JSON.parse] of
    [JSON.stringify(exported, null, 2)] is [exported].) *)
Theorem export_then_import (st st2 : App) :
  let exported := completedQuestions (questions st) in
  let file := downloadProgress st in
  let st' := importProgress (Some (blob file)) st2 in
  JSON_parse (JSON_stringify_indented exported) = inr exported →
  (λ q, withCompleted q false) <$> questions st2
  = (λ q, withCompleted q false) <$> questions st →
  download file = "progress.json"
  ∧ localStorage st' = <[slot := JSON_stringify exported]> (localStorage st2)
  ∧ (∀ q : Question, q ∈ questions st' →
       exported !! Title q = Some (completed q))
  ∧ completedQuestions (questions st') = exported
  ∧ downloadProgress st' = file
  ∧ (NoDup (Title <$> questions st) → questions st' = questions st).
Proof.
  intros exported file st' Hparse Hrows.
  assert (Hfile : blob file = JSON_stringify_indented exported) by done.
  assert (Hqs : questions st'
                = (λ q, withCompleted q (or_false (getProperty exported (Title q))))
                    <$> questions st).
  { subst st'. unfold importProgress. rewrite Hfile, Hparse. simpl.
    exact (recompleted_same_rows (λ t, or_false (getProperty exported t))
             _ _ Hrows). }
  assert (Hstorage : localStorage st'
                     = <[slot := JSON_stringify exported]> (localStorage st2)).
  { subst st'. unfold importProgress. by rewrite Hfile, Hparse. }
  assert (Hflag : ∀ q, q ∈ questions st →
            ∃ b, exported !! Title q = Some b
                 ∧ or_false (getProperty exported (Title q)) = b).
  { intros q Hq. destruct (completedQuestions_is_Some _ _ Hq) as [b Hb].
    fold exported in Hb. exists b. split; [done|]. by apply or_false_own. }
  assert (Hagain : completedQuestions (questions st') = exported).
  { rewrite Hqs. apply map_eq. intros k.
    rewrite (completedQuestions_by_title (λ t, or_false (getProperty exported t))).
    destruct (decide (k ∈ Title <$> questions st)) as [Hin|Hnin].
    - apply list_elem_of_fmap in Hin as (q & -> & Hq).
      destruct (Hflag q Hq) as (b & Hb & ->). done.
    - symmetry. apply not_elem_of_dom. subst exported.
      rewrite completedQuestions_dom. by rewrite elem_of_list_to_set. }
  split; [done|]. split; [done|]. split; [|split; [done|split]].
  - rewrite Hqs. intros q' (q & -> & Hq)%list_elem_of_fmap. simpl.
    destruct (Hflag q Hq) as (b & Hb & ->). done.
  - subst file. unfold downloadProgress. by rewrite Hagain.
  - intros Hnodup. rewrite Hqs.
    rewrite <- (list_fmap_id (questions st)) at 2.
    apply list_fmap_ext. intros i q Hq. subst exported.
    rewrite (or_false_own _ _ (completed q)).
    + apply withCompleted_same.
    + apply completedQuestions_own_flag; [done|].
      by eapply list_elem_of_lookup_2.
Qed.

End ProgressStore.

(** C1, as the specification words it, fails on a data set with a repeated
    title: [toggleQuestion] flips both records called "Two Sum", whereas
    flipping "exactly one record, the first match" leaves the second one
    alone. *)
Lemma toggle_flips_duplicates_too :
  questions (toggleQuestion jsonStringify "Two Sum" duplicatedApp)
  ≠ flipFirst "Two Sum" (questions duplicatedApp).
Proof.
  intros Heq.
  assert (Hsecond :
    completed <$> questions (toggleQuestion jsonStringify "Two Sum" duplicatedApp) !! 1%nat
    = completed <$> flipFirst "Two Sum" (questions duplicatedApp) !! 1%nat)
    by (by rewrite Heq).
  vm_compute in Hsecond. discriminate Hsecond.
Qed.


(** C5, where the code departs from it: a data set with a row titled
    "constructor".  The page is opened on an empty storage, the progress is
    reset, and the page is opened again.  The reset leaves every record
    open and no text under the key, as the specification says.  The load
    that follows looks the title up in the empty object, finds the member
    every object inherits, and shows "constructor" completed, where the
    specification says that a load after a reset yields completed = false
    for every record. *)
Theorem reset_then_load_of_inherited_title :
  let st' :=
    run jsonParse jsonStringify
      [Loaded [twoSum; constructorRow]; ResetPressed] (initialApp ∅) in
  let reloaded :=
    loadQuestions jsonParse [twoSum; constructorRow]
      (initialApp (localStorage st')) in
  questions st' = [twoSum; constructorRow]
  ∧ Forall (λ q, completed q = false) (questions st')
  ∧ localStorage st' !! slot = None
  ∧ getProperty ∅ "constructor" = Inherited
  ∧ questions reloaded = [twoSum; withCompleted constructorRow true]
  ∧ ¬ Forall (λ q, completed q = false) (questions reloaded).
Proof.
  assert (Hstate :
    questions (run jsonParse jsonStringify
                 [Loaded [twoSum; constructorRow]; ResetPressed] (initialApp ∅))
    = [twoSum; constructorRow]) by (vm_compute; reflexivity).
  assert (Hreloaded :
    questions
      (loadQuestions jsonParse [twoSum; constructorRow]
         (initialApp
            (localStorage
               (run jsonParse jsonStringify
                  [Loaded [twoSum; constructorRow]; ResetPressed]
                  (initialApp ∅)))))
    = [twoSum; withCompleted constructorRow true]) by (vm_compute; reflexivity).
  cbv zeta. rewrite Hstate, Hreloaded.
  split; [done|]. split; [by repeat constructor|].
  split; [vm_compute; reflexivity|]. split; [vm_compute; reflexivity|].
  split; [done|].
  intros Hopen. apply Forall_cons in Hopen as [_ Hopen].
  apply Forall_cons in Hopen as [Hopen _]. discriminate Hopen.
Qed.

(** X20 at the scenario's data, reset after "Two Sum" was completed. *)
Lemma reset_then_reload_witness :
  jsonParse "{}" = inr ∅
  ∧ localStorage (resetProgress (toggleQuestion jsonStringify "Two Sum" freshApp))
    !! slot = None
  ∧ Forall (λ q, Title q ∉ Object_prototype) [twoSum; mergeKLists]
  ∧ Forall (λ q, completed q = false)
      (questions
         (loadQuestions jsonParse [twoSum; mergeKLists]
            (initialApp
               (localStorage
                  (resetProgress
                     (toggleQuestion jsonStringify "Two Sum" freshApp)))))).
Proof.
  assert (Hown : Forall (λ q, Title q ∉ Object_prototype) [twoSum; mergeKLists]).
  { repeat constructor; rewrite list_elem_of_In; vm_compute;
      intuition discriminate. }
  split; [vm_compute; reflexivity|].
  pose proof (reset_then_reload jsonParse
                (toggleQuestion jsonStringify "Two Sum" freshApp)
                [twoSum; mergeKLists]) as Hreset.
  destruct Hreset as (_ & _ & _ & Hnone & _ & _ & Hfalse & _);
    [vm_compute; reflexivity|].
  split; [exact Hnone|]. split; [exact Hown|]. exact (proj2 (Hfalse Hown)).
Defined.

(** C6 at the scenario's data and a text that is no JSON. *)
Lemma import_of_invalid_json_witness :
  jsonParse "{Two Sum: yes" = inl SyntaxError
  ∧ questions (importProgress jsonParse jsonStringify
                 (Some "{Two Sum: yes") freshApp)
    = questions freshApp
  ∧ localStorage (importProgress jsonParse jsonStringify
                    (Some "{Two Sum: yes") freshApp)
    = localStorage freshApp
  ∧ alerts (importProgress jsonParse jsonStringify
              (Some "{Two Sum: yes") freshApp)
    = alerts freshApp ++ ["Invalid progress file."].
Proof.
  split; [vm_compute; reflexivity|].
  apply (import_of_invalid_json jsonParse jsonStringify
           "{Two Sum: yes" SyntaxError freshApp).
  vm_compute. reflexivity.
Defined.

(** C7 at the scenario's data with "Two Sum" completed: the exported file
    is imported after a reset. *)
Lemma export_then_import_witness :
  jsonParse
    (jsonStringifyIndented
       (completedQuestions
          (questions (toggleQuestion jsonStringify "Two Sum" freshApp))))
  = inr (completedQuestions
           (questions (toggleQuestion jsonStringify "Two Sum" freshApp)))
  ∧ (λ q, withCompleted q false)
      <$> questions (resetProgress (toggleQuestion jsonStringify "Two Sum" freshApp))
    = (λ q, withCompleted q false)
        <$> questions (toggleQuestion jsonStringify "Two Sum" freshApp)
  ∧ questions
      (importProgress jsonParse jsonStringify
         (Some (blob (downloadProgress jsonStringifyIndented
                        (toggleQuestion jsonStringify "Two Sum" freshApp))))
         (resetProgress (toggleQuestion jsonStringify "Two Sum" freshApp)))
    = questions (toggleQuestion jsonStringify "Two Sum" freshApp).
Proof.
  split; [vm_compute; reflexivity|].
  split; [vm_compute; reflexivity|].
  pose proof (export_then_import jsonParse jsonStringify jsonStringifyIndented
                (toggleQuestion jsonStringify "Two Sum" freshApp)
                (resetProgress (toggleQuestion jsonStringify "Two Sum" freshApp)))
    as Hround.
  destruct Hround as (_ & _ & _ & _ & _ & Hsame);
    [vm_compute; reflexivity|vm_compute; reflexivity|].
  apply Hsame. vm_compute.
  repeat constructor; rewrite ?list_elem_of_In; simpl; intuition discriminate.
Defined.

(** The scenario of the specification: after the first load, toggling
    "Two Sum" stores both titles, the untouched one with [false]. *)
Example toggle_two_sum :
  localStorage (toggleQuestion jsonStringify "Two Sum" freshApp) !! slot
  = Some (jsonStringify (<["Two Sum" := true]> {[ "Merge K Lists" := false ]}))
  ∧ jsonParse (jsonStringify (<["Two Sum" := true]> {[ "Merge K Lists" := false ]}))
    = inr (<["Two Sum" := true]> {[ "Merge K Lists" := false ]}).
Proof. split; vm_compute; reflexivity. Qed.

(** The first load of the scenario's data, read from an empty storage. *)
Example first_load :
  loadQuestions jsonParse [twoSum; mergeKLists] (initialApp ∅) = freshApp.
Proof. vm_compute. reflexivity. Qed.

(** ** Strings: prefixes and substrings *)

Lemma append_nil (s : string) : "" +:+ s = s.
Proof. reflexivity. Qed.

Lemma append_cons (c : Ascii.ascii) (s t : string) :
  String c s +:+ t = String c (s +:+ t).
Proof. reflexivity. Qed.

Lemma toLowerCase_append (a b : string) :
  toLowerCase (a +:+ b) = toLowerCase a +:+ toLowerCase b.
Proof.
  induction a as [|x a IH]; [done|].
  rewrite append_cons. simpl. by rewrite IH, append_cons.
Qed.

(** A split of the lower-cased text comes from a split of the text. *)
Lemma toLowerCase_split (t a b : string) :
  toLowerCase t = a +:+ b →
  ∃ t1 t2, t = t1 +:+ t2 ∧ toLowerCase t1 = a ∧ toLowerCase t2 = b.
Proof.
  revert t. induction a as [|x a IH]; intros t Ht.
  - exists "", t. done.
  - destruct t as [|c t]; [discriminate Ht|].
    rewrite append_cons in Ht. simpl in Ht. injection Ht as Hc Ht.
    destruct (IH t Ht) as (t1 & t2 & -> & <- & <-).
    exists (String c t1), t2. rewrite append_cons. simpl. by rewrite Hc.
Qed.

Lemma startsWith_spec (s needle : string) :
  startsWith s needle = true ↔ ∃ after, s = needle +:+ after.
Proof.
  revert s. induction needle as [|a needle IH]; intros s; simpl.
  - split; [intros _; by exists s|done].
  - destruct s as [|b s].
    + split; [done|]. intros [after Hafter]. discriminate Hafter.
    + destruct (decide (a = b)) as [->|Hne].
      * rewrite IH. split.
        -- intros [after ->]. by exists after.
        -- intros [after Hafter]. rewrite append_cons in Hafter.
           injection Hafter as ->. by exists after.
      * split; [done|]. intros [after Hafter]. rewrite append_cons in Hafter.
        by injection Hafter as <-.
Qed.

Lemma includes_spec (s needle : string) :
  includes s needle = true ↔ ∃ before after, s = before +:+ needle +:+ after.
Proof.
  induction s as [|c s IH]; simpl.
  - rewrite orb_false_r, startsWith_spec. split.
    + intros [after Hs]. by exists "", after.
    + intros ([|? ?] & after & Hs); [by exists after|discriminate Hs].
  - rewrite orb_true_iff, IH, startsWith_spec. split.
    + intros [[after Hs]|(before & after & ->)].
      * by exists "", after.
      * by exists (String c before), after.
    + intros ([|x before] & after & Hs).
      * left. by exists after.
      * right. rewrite append_cons in Hs. injection Hs as _ ->.
        by exists before, after.
Qed.

(** The code of a folded character. *)
Lemma nat_of_lowerChar (c : Ascii.ascii) :
  Ascii.nat_of_ascii (lowerChar c)
  = if (65 <=? Ascii.nat_of_ascii c)%nat && (Ascii.nat_of_ascii c <=? 90)%nat
    then (Ascii.nat_of_ascii c + 32)%nat else Ascii.nat_of_ascii c.
Proof.
  unfold lowerChar.
  destruct ((65 <=? Ascii.nat_of_ascii c)%nat && (Ascii.nat_of_ascii c <=? 90)%nat)
    eqn:Hupper; [|done].
  apply andb_true_iff in Hupper as [_ Hle%Nat.leb_le].
  apply Ascii.nat_ascii_embedding. lia.
Qed.

(** Two characters are the same letter exactly when folding makes them
    equal. *)
Lemma sameLetter_spec (a b : Ascii.ascii) :
  sameLetter a b = true ↔ lowerChar a = lowerChar b.
Proof.
  assert (Hcodes : lowerChar a = lowerChar b
                   ↔ Ascii.nat_of_ascii (lowerChar a)
                     = Ascii.nat_of_ascii (lowerChar b)).
  { split; [by intros ->|]. intros Heq.
    rewrite <- (Ascii.ascii_nat_embedding (lowerChar a)), Heq.
    apply Ascii.ascii_nat_embedding. }
  rewrite Hcodes, !nat_of_lowerChar. unfold sameLetter.
  set (m := Ascii.nat_of_ascii a). set (n := Ascii.nat_of_ascii b).
  rewrite !orb_true_iff, !andb_true_iff, !Nat.eqb_eq, !Nat.leb_le.
  destruct (65 <=? m)%nat eqn:Hm1, (m <=? 90)%nat eqn:Hm2,
           (65 <=? n)%nat eqn:Hn1, (n <=? 90)%nat eqn:Hn2; simpl;
    rewrite ?Nat.leb_le, ?Nat.leb_gt in *; lia.
Qed.

Lemma sameIgnoringCase_spec (s t : string) :
  sameIgnoringCase s t = true ↔ toLowerCase s = toLowerCase t.
Proof.
  revert t. induction s as [|a s IH]; intros [|b t]; simpl; try done.
  rewrite andb_true_iff, sameLetter_spec, IH. split.
  - by intros [-> ->].
  - by intros [= -> ->].
Qed.

(** On folded texts, the test of the search filter on one field is the
    case-insensitive substring relation. *)
Lemma includes_toLowerCase (text s : string) :
  includes (toLowerCase text) (toLowerCase s) = true
  ↔ containsIgnoringCase text s.
Proof.
  rewrite includes_spec. unfold containsIgnoringCase. split.
  - intros (before & after & Htext).
    apply toLowerCase_split in Htext as (t1 & rest & -> & Hbefore & Hrest).
    apply toLowerCase_split in Hrest as (t2 & t3 & -> & Hmiddle & Hafter).
    exists t1, t2, t3. by rewrite sameIgnoringCase_spec.
  - intros (before & middle & after & -> & Hmiddle%sameIgnoringCase_spec).
    exists (toLowerCase before), (toLowerCase after).
    by rewrite !toLowerCase_append, Hmiddle.
Qed.

Lemma containsIgnoringCase_empty (text : string) : containsIgnoringCase text "".
Proof. by exists "", "", text. Qed.

Lemma isAscii_append (a b : string) :
  isAscii (a +:+ b) = isAscii a && isAscii b.
Proof.
  induction a as [|x a IH]; [done|].
  rewrite append_cons. simpl. by rewrite IH, andb_assoc.
Qed.

Lemma append_assoc (a b c : string) : (a +:+ b) +:+ c = a +:+ (b +:+ c).
Proof.
  induction a as [|x a IH]; [done|].
  by rewrite !append_cons, IH.
Qed.

Lemma append_empty_l (a b : string) : a +:+ b = "" → a = "".
Proof. destruct a; [done|]. rewrite append_cons. discriminate. Qed.

(** A text that includes a term includes every stretch of the term. *)
Lemma includes_stretch (text before s after : string) :
  includes text (before +:+ s +:+ after) = true → includes text s = true.
Proof.
  rewrite !includes_spec. intros (t1 & t2 & ->).
  exists (t1 +:+ before), (after +:+ t2). by rewrite !append_assoc.
Qed.

(** ** The sort is a rearrangement *)

Lemma insertSorted_Permutation {A : Type} (comparefn : A → A → Number)
    (x : A) (l : list A) :
  insertSorted comparefn x l ≡ₚ x :: l.
Proof.
  induction l as [|y l IH]; simpl; [done|].
  destruct (isPositive (comparefn x y)); [|done].
  rewrite IH. apply Permutation_swap.
Qed.

Lemma sort_Permutation {A : Type} (comparefn : A → A → Number) (l : list A) :
  sort comparefn l ≡ₚ l.
Proof.
  induction l as [|x l IH]; simpl; [done|].
  by rewrite insertSorted_Permutation, IH.
Qed.

Section Displayed.
Context (String_toLowerCase : string → string).
Context (parseFloat : string → Number) (localeCompare : string → string → Z).

Abbreviation matchesSearch := (matchesSearch String_toLowerCase).
Abbreviation filteredQuestions :=
  (filteredQuestions String_toLowerCase parseFloat localeCompare).

(** A record is displayed when it passes the search filter, unless the
    term is empty, and the difficulty filter, unless that is "all". *)
Lemma elem_of_filteredQuestions (qs : list Question)
    (searchTerm difficultyFilter : string) (sortConfig : SortConfig)
    (q : Question) :
  q ∈ filteredQuestions qs searchTerm difficultyFilter sortConfig
  ↔ q ∈ qs
    ∧ (searchTerm = "" ∨ matchesSearch searchTerm q = true)
    ∧ (difficultyFilter = "all" ∨ Difficulty q = difficultyFilter).
Proof.
  unfold filteredQuestions. rewrite sort_Permutation.
  destruct (decide (difficultyFilter ≠ "all")) as [Hd|Hd%dec_stable];
    destruct (decide (searchTerm ≠ "")) as [Hs|Hs%dec_stable];
    rewrite ?list_elem_of_filter, ?Is_true_true; naive_solver.
Qed.

(** On ASCII text the callback of the search filter is the
    case-insensitive substring relation, on the title or on the topics. *)
Lemma matchesSearch_spec (searchTerm : string) (q : Question) :
  foldsAscii String_toLowerCase →
  isAscii searchTerm = true → isAscii (Title q) = true →
  isAscii (Topics q) = true →
  matchesSearch searchTerm q = true
  ↔ containsIgnoringCase (Title q) searchTerm
    ∨ containsIgnoringCase (Topics q) searchTerm.
Proof.
  intros Hfolds Hterm Htitle Htopics. unfold matchesSearch.
  rewrite !Hfolds by done.
  by rewrite orb_true_iff, !includes_toLowerCase.
Qed.

(** C3 (amended): a record is displayed exactly when it belongs to the
    record set, passes the difficulty filter, and the search term is empty
    or the lower-cased title or the lower-cased topics include the
    lower-cased term.  For a term, a title and topics written in ASCII
    that is: the title or the topics contain the term as a
    case-insensitive substring (with the difficulty filter "all" nothing
    else is asked, and under any filter that filter's condition as well).
    The empty term keeps every record, each one as often as it occurs.
    ([toLowerCase] is assumed to fold ASCII text letter by letter.) *)
Theorem search_filter_spec (qs : list Question) (searchTerm : string)
    (sortConfig : SortConfig) (q : Question) :
  foldsAscii String_toLowerCase →
  (∀ difficultyFilter : string,
     q ∈ filteredQuestions qs searchTerm difficultyFilter sortConfig
     ↔ q ∈ qs
       ∧ (searchTerm = ""
          ∨ includes (String_toLowerCase (Title q))
              (String_toLowerCase searchTerm) = true
          ∨ includes (String_toLowerCase (Topics q))
              (String_toLowerCase searchTerm) = true)
       ∧ (difficultyFilter = "all" ∨ Difficulty q = difficultyFilter))
  ∧ (isAscii searchTerm = true → isAscii (Title q) = true →
     isAscii (Topics q) = true →
     (q ∈ filteredQuestions qs searchTerm "all" sortConfig
      ↔ q ∈ qs
        ∧ (containsIgnoringCase (Title q) searchTerm
           ∨ containsIgnoringCase (Topics q) searchTerm))
     ∧ (∀ difficultyFilter : string,
          q ∈ filteredQuestions qs searchTerm difficultyFilter sortConfig
          ↔ q ∈ qs
            ∧ (containsIgnoringCase (Title q) searchTerm
               ∨ containsIgnoringCase (Topics q) searchTerm)
            ∧ (difficultyFilter = "all" ∨ Difficulty q = difficultyFilter)))
  ∧ (q ∈ filteredQuestions qs "" "all" sortConfig ↔ q ∈ qs)
  ∧ filteredQuestions qs "" "all" sortConfig ≡ₚ qs.
Proof.
  intros Hfolds. split; [|split; [|split]].
  - intros difficultyFilter. rewrite elem_of_filteredQuestions.
    unfold matchesSearch. rewrite orb_true_iff. naive_solver.
  - intros Hterm Htitle Htopics.
    assert (Hmatch : searchTerm = "" ∨ matchesSearch searchTerm q = true
                     ↔ containsIgnoringCase (Title q) searchTerm
                       ∨ containsIgnoringCase (Topics q) searchTerm).
    { rewrite matchesSearch_spec by done. split; [|by right].
      intros [->|Hmatch]; [|done]. left. apply containsIgnoringCase_empty. }
    split.
    + rewrite elem_of_filteredQuestions, Hmatch. naive_solver.
    + intros difficultyFilter. by rewrite elem_of_filteredQuestions, Hmatch.
  - rewrite elem_of_filteredQuestions. naive_solver.
  - unfold filteredQuestions. by rewrite sort_Permutation.
Qed.

End Displayed.

(** ** The order of numbers *)

Lemma isPositive_Finite (q : Q) : isPositive (Finite q) = true ↔ (0 < q)%Q.
Proof.
  simpl. rewrite negb_true_iff, <- not_true_iff_false, Qle_bool_iff.
  split; [apply Qnot_le_lt|apply Qlt_not_le].
Qed.

Lemma ltNumber_Finite (a b : Q) : ltNumber (Finite a) (Finite b) ↔ (a < b)%Q.
Proof.
  unfold ltNumber. change (minus (Finite b) (Finite a)) with (Finite (b - a)).
  rewrite isPositive_Finite. split; intros; lra.
Qed.

Lemma ltNumber_numeric (x y : Number) :
  ltNumber x y → isNumeric x = true ∧ isNumeric y = true.
Proof. by destruct x as [|[]|a], y as [|[]|b]. Qed.

Lemma ltNumber_trans (x y z : Number) :
  ltNumber x y → ltNumber y z → ltNumber x z.
Proof.
  destruct x as [|[]|a], y as [|[]|b], z as [|[]|c]; try done.
  rewrite !ltNumber_Finite. apply Qlt_trans.
Qed.

Lemma ltNumber_asym (x y : Number) : ltNumber x y → ltNumber y x → False.
Proof.
  destruct x as [|[]|a], y as [|[]|b]; try done.
  rewrite !ltNumber_Finite. intros Hab Hba.
  apply (Qlt_irrefl a). by apply Qlt_trans with b.
Qed.

(** Two numeric values that are not the same value are ordered. *)
Lemma ltNumber_total (x y : Number) :
  isNumeric x = true → isNumeric y = true → sameNumber x y = false →
  ltNumber x y ∨ ltNumber y x.
Proof.
  destruct x as [|[]|a], y as [|[]|b]; try done; try (by left); try (by right).
  intros _ _ Hne. rewrite !ltNumber_Finite.
  simpl in Hne. apply Qeq_bool_neq in Hne.
  destruct (Q_dec a b) as [[Hlt|Hgt]|Heq]; [by left|by right|done].
Qed.

(** ** The sort orders by a consistent comparator *)

Section SortOrders.
Context {A : Type} (comparefn : A → A → Number).
Context (precedes_trans : ∀ x y z : A,
           precedes comparefn x y → precedes comparefn y z →
           precedes comparefn x z).

Lemma insertSorted_StronglySorted (x : A) (l : list A) :
  StronglySorted (precedes comparefn) l →
  Forall (comparable comparefn x) l →
  StronglySorted (precedes comparefn) (insertSorted comparefn x l).
Proof.
  induction 1 as [|y l Hl IH Hy]; intros Hx; simpl.
  { by repeat constructor. }
  apply Forall_cons in Hx as [Hxy Hx].
  destruct (isPositive (comparefn x y)) eqn:Hpos.
  - constructor; [by apply IH|].
    rewrite insertSorted_Permutation. by constructor.
  - destruct Hxy as [Hxy|Hyx]; [|unfold precedes in Hyx; congruence].
    constructor; [by constructor|].
    constructor; [done|].
    eapply Forall_impl; [exact Hy|]. intros z Hyz. by eapply precedes_trans.
Qed.

Lemma sort_StronglySorted (l : list A) :
  ForallOrdPairs (comparable comparefn) l →
  StronglySorted (precedes comparefn) (sort comparefn l).
Proof.
  induction 1 as [|x l Hx Hl IH]; simpl; [constructor|].
  apply insertSorted_StronglySorted; [done|].
  by rewrite sort_Permutation.
Qed.
End SortOrders.

Lemma ForallOrdPairs_filter {A : Type} (R : A → A → Prop) (P : A → Prop)
    `{∀ x, Decision (P x)} (l : list A) :
  ForallOrdPairs R l → ForallOrdPairs R (filter P l).
Proof.
  induction 1 as [|x l Hx Hl IH]; [constructor|].
  destruct (decide (P x)).
  - rewrite filter_cons_True by done. constructor; [|done].
    apply Forall_forall. intros y [_ Hy]%list_elem_of_filter.
    by eapply Forall_forall in Hx.
  - by rewrite filter_cons_False.
Qed.

Lemma ForallOrdPairs_impl {A : Type} (R S : A → A → Prop) (l : list A) :
  (∀ x y, R x y → S x y) → ForallOrdPairs R l → ForallOrdPairs S l.
Proof.
  intros HRS. induction 1 as [|x l Hx Hl IH]; constructor; [|done].
  eapply Forall_impl; [exact Hx|]. intros y. apply HRS.
Qed.

(** ** Sorting by frequency *)

Section ByFrequency.
Context (String_toLowerCase : string → string).
Context (parseFloat : string → Number) (localeCompare : string → string → Z).

Abbreviation filteredQuestions :=
  (filteredQuestions String_toLowerCase parseFloat localeCompare).
Abbreviation compareQuestions := (compareQuestions parseFloat localeCompare).
Abbreviation frequency q := (parseFloat (Frequency q)).

(** The displayed list is the sort of one filtered list, the same for every
    sort configuration, and that list is drawn from the record set. *)
Lemma filteredQuestions_sort (qs : list Question)
    (searchTerm difficultyFilter : string) :
  ∃ filtered : list Question,
    (∀ sortConfig, filteredQuestions qs searchTerm difficultyFilter sortConfig
                   = sort (compareQuestions sortConfig) filtered)
    ∧ (∀ R : Question → Question → Prop,
         ForallOrdPairs R qs → ForallOrdPairs R filtered).
Proof.
  unfold filteredQuestions.
  eexists. split; [intros sortConfig; reflexivity|].
  intros R HR.
  destruct (decide (difficultyFilter ≠ "all")), (decide (searchTerm ≠ ""));
    repeat apply ForallOrdPairs_filter; done.
Qed.

Lemma distinctNumericFrequencies_numeric (qs : list Question) :
  distinctNumericFrequencies parseFloat qs = true →
  Forall (λ q, isNumeric (frequency q) = true) qs.
Proof.
  induction qs as [|q qs IH]; simpl; [constructor|].
  rewrite !andb_true_iff. intros [[Hq _] Hqs]. constructor; auto.
Qed.

(** Distinct numeric frequencies are strictly ordered, pair by pair. *)
Lemma distinctNumericFrequencies_ordered (qs : list Question) :
  distinctNumericFrequencies parseFloat qs = true →
  ForallOrdPairs (λ x y, ltNumber (frequency x) (frequency y)
                         ∨ ltNumber (frequency y) (frequency x)) qs.
Proof.
  induction qs as [|q qs IH]; simpl; [constructor|].
  rewrite !andb_true_iff. intros [[Hq Hdistinct] Hqs].
  constructor; [|by apply IH].
  apply distinctNumericFrequencies_numeric in Hqs.
  rewrite forallb_forall in Hdistinct.
  apply Forall_forall. intros q' Hq'.
  apply ltNumber_total; [done|by eapply Forall_forall in Hqs|].
  apply negb_true_iff, Hdistinct, list_elem_of_In, Hq'.
Qed.

(** C8: when the frequencies of the record set are numeric and pairwise
    distinct, the list displayed with the sort (Frequency, descending) is
    exactly the reverse of the list displayed with (Frequency, ascending),
    whatever the search term and the difficulty filter; the ascending list
    is in strictly increasing order of frequency. *)
Theorem frequency_descending_reverses_ascending (qs : list Question)
    (searchTerm difficultyFilter : string) :
  distinctNumericFrequencies parseFloat qs = true →
  filteredQuestions qs searchTerm difficultyFilter
    {| key := KFrequency; direction := desc |}
  = reverse (filteredQuestions qs searchTerm difficultyFilter
               {| key := KFrequency; direction := asc |})
  ∧ StronglySorted (λ a b, ltNumber (frequency a) (frequency b))
      (filteredQuestions qs searchTerm difficultyFilter
         {| key := KFrequency; direction := asc |}).
Proof.
  intros Hdistinct%distinctNumericFrequencies_ordered.
  destruct (filteredQuestions_sort qs searchTerm difficultyFilter)
    as (filtered & Hsort & Hpairs).
  rewrite !Hsort. apply Hpairs in Hdistinct. clear Hsort Hpairs.
  set (ascending := compareQuestions {| key := KFrequency; direction := asc |}).
  set (descending := compareQuestions {| key := KFrequency; direction := desc |}).
  assert (Hasc : StronglySorted (precedes ascending) (sort ascending filtered)).
  { apply sort_StronglySorted; [|exact Hdistinct].
    intros x y z. apply ltNumber_trans. }
  assert (Hdesc : StronglySorted (precedes descending) (sort descending filtered)).
  { apply sort_StronglySorted.
    - intros x y z Hxy Hyz. exact (ltNumber_trans _ _ _ Hyz Hxy).
    - eapply ForallOrdPairs_impl; [|exact Hdistinct].
      intros x y [Hlt|Hgt]; [by right|by left]. }
  split; [|exact Hasc].
  apply (StronglySorted_unique_strong (precedes descending)).
  - intros x y _ _ Hxy Hyx. destruct (ltNumber_asym _ _ Hxy Hyx).
  - exact Hdesc.
  - apply Sorted_StronglySorted.
    { intros x y z Hxy Hyz. exact (ltNumber_trans _ _ _ Hyz Hxy). }
    apply (Sorted_reverse (precedes ascending)).
    by apply StronglySorted_Sorted.
  - by rewrite reverse_Permutation, !sort_Permutation.
Qed.
End ByFrequency.

(** C8 at three rows with the frequencies 42.1, 85.5 and 30.2. *)
Lemma frequency_descending_reverses_ascending_witness :
  distinctNumericFrequencies parseDecimal [mergeKLists; twoSum; lowerCaseEasy]
  = true
  ∧ (filteredQuestions toLowerCase parseDecimal compareCodes
       [mergeKLists; twoSum; lowerCaseEasy] "" "all"
       {| key := KFrequency; direction := desc |}
     = reverse (filteredQuestions toLowerCase parseDecimal compareCodes
                  [mergeKLists; twoSum; lowerCaseEasy] "" "all"
                  {| key := KFrequency; direction := asc |})
     ∧ StronglySorted
         (λ a b, ltNumber (parseDecimal (Frequency a)) (parseDecimal (Frequency b)))
         (filteredQuestions toLowerCase parseDecimal compareCodes
            [mergeKLists; twoSum; lowerCaseEasy] "" "all"
            {| key := KFrequency; direction := asc |})).
Proof.
  split; [vm_compute; reflexivity|].
  apply (frequency_descending_reverses_ascending toLowerCase parseDecimal compareCodes
           [mergeKLists; twoSum; lowerCaseEasy] "" "all").
  vm_compute. reflexivity.
Defined.


(** C3 at the scenario's data: "hASH" finds "Two Sum" by its topics. *)
Lemma search_filter_spec_witness :
  foldsAscii toLowerCase
  ∧ (twoSum ∈ filteredQuestions toLowerCase parseDecimal compareCodes
                [twoSum; mergeKLists] "hASH" "all" defaultSort
     ↔ twoSum ∈ [twoSum; mergeKLists]
       ∧ (containsIgnoringCase (Title twoSum) "hASH"
          ∨ containsIgnoringCase (Topics twoSum) "hASH")).
Proof.
  assert (Hfolds : foldsAscii toLowerCase) by (intros s _; reflexivity).
  split; [exact Hfolds|].
  exact (proj1 (proj1 (proj2
           (search_filter_spec toLowerCase parseDecimal compareCodes
              [twoSum; mergeKLists] "hASH" defaultSort twoSum Hfolds))
           eq_refl eq_refl eq_refl)).
Defined.

(** The lower-casing of the Greek sample: the sigma that ends the word
    becomes the final sigma, the sigma alone the plain one. *)
Example lowerCaseGreek_samples :
  lowerCaseGreek (Title odos) = "οδος"
  ∧ lowerCaseGreek capitalSigma = "σ"
  ∧ lowerCaseGreek "Hash Table" = "hash table"
  ∧ includes (lowerCaseGreek (Title odos)) (lowerCaseGreek capitalSigma) = false.
Proof. repeat split; vm_compute; reflexivity. Qed.

(** C3, as the specification words it, fails outside ASCII.  The title of
    [odos] ends in a capital sigma, so it contains the term "Σ" itself; the
    record is still not displayed for that term, because the sigma that
    ends the title and the sigma that is the whole term lower-case to two
    different letters. *)
Lemma search_misses_final_sigma :
  ¬ (odos ∈ filteredQuestions lowerCaseGreek parseDecimal compareCodes
              [odos] capitalSigma "all" defaultSort
     ↔ odos ∈ [odos]
       ∧ (containsIgnoringCase (Title odos) capitalSigma
          ∨ containsIgnoringCase (Topics odos) capitalSigma)).
Proof.
  intros [_ Hshown].
  assert (Hin : odos ∈ filteredQuestions lowerCaseGreek parseDecimal compareCodes
                         [odos] capitalSigma "all" defaultSort).
  { apply Hshown. split; [by left|]. left.
    exists "ΟΔΟ", capitalSigma, "". split; vm_compute; reflexivity. }
  apply list_elem_of_In in Hin. vm_compute in Hin. exact Hin.
Qed.

(** The scenario of the specification: the default sort shows "Two Sum"
    first, and the filter "Hard" leaves "Merge K Lists" alone. *)
Example scenario_default_sort :
  Title <$> filteredQuestions toLowerCase parseDecimal compareCodes
              [mergeKLists; twoSum] "" "all" defaultSort
  = ["Two Sum"; "Merge K Lists"].
Proof. vm_compute. reflexivity. Qed.

Example scenario_hard_only :
  Title <$> filteredQuestions toLowerCase parseDecimal compareCodes
              [twoSum; mergeKLists] "" "Hard" defaultSort
  = ["Merge K Lists"].
Proof. vm_compute. reflexivity. Qed.

Example scenario_search_ignores_case :
  Title <$> filteredQuestions toLowerCase parseDecimal compareCodes
              [twoSum; mergeKLists] "hASH" "all" defaultSort
  = ["Two Sum"].
Proof. vm_compute. reflexivity. Qed.

(** The filter compares the field as it is written: a row spelled "easy"
    gets the badge of "Easy" and is still not shown under the filter
    "Easy". *)
Example filter_is_not_normalized :
  getNormalizedDifficulty (Difficulty lowerCaseEasy) = "Easy"
  ∧ filteredQuestions toLowerCase parseDecimal compareCodes
      [twoSum; lowerCaseEasy] "" "Easy" defaultSort
    = [twoSum].
Proof. split; vm_compute; reflexivity. Qed.

(** ** The progress percentage *)

(** The quotient and the product are rounded as floats before [Math.round]
    sees them: a third gives 33, an eighth (12.5) gives 13, 29 of 200 give
    14, the product being 14.499999999999998, and 23 of 40 give 57, the
    product being 57.49999999999999. *)
Example progress_samples :
  progress (sampleProgress 1 3) = 33%float
  ∧ progress (sampleProgress 2 3) = 67%float
  ∧ progress (sampleProgress 1 8) = 13%float
  ∧ progress (sampleProgress 200 200) = 100%float
  ∧ progress (sampleProgress 29 200) = 14%float
  ∧ (Number_of_nat 23 / Number_of_nat 40 * 100 <? 57.5)%float = true.
Proof. repeat split; vm_compute; reflexivity. Qed.

(** Without the test on the length the empty record set would show NaN. *)
Example unguarded_percentage_is_nan :
  PrimFloat.is_nan
    (Math_round (Number_of_nat 0 / Number_of_nat 0 * 100)%float) = true
  ∧ PrimFloat.is_nan (progress []) = false.
Proof. split; vm_compute; reflexivity. Qed.

(** ** Column headers *)

(** X1: a click on a column header selects that column.  On another column
    than the active one it sorts ascending; on the active column it flips
    the direction, so two clicks restore the configuration, and from the
    third click on the clicks alternate. *)
Theorem handleSort_clicks (k : Key) (current : SortConfig) :
  key (handleSort k current) = k
  ∧ (key current ≠ k → handleSort k current = {| key := k; direction := asc |})
  ∧ (key current = k → direction (handleSort k current) ≠ direction current)
  ∧ (key current = k → handleSort k (handleSort k current) = current)
  ∧ handleSort k (handleSort k (handleSort k current)) = handleSort k current.
Proof.
  destruct current as [k0 d0]. unfold handleSort. simpl.
  split; [done|].
  destruct (decide (k0 = k)) as [->|Hne].
  - destruct d0; simpl;
      repeat (rewrite ?decide_True by done; rewrite ?decide_False by naive_solver;
              simpl);
      repeat split; try done; intros; congruence.
  - rewrite (decide_False (P := k0 = k ∧ d0 = asc)) by naive_solver. simpl.
    rewrite (decide_True (P := k = k ∧ asc = asc)) by done. simpl.
    rewrite (decide_False (P := k = k ∧ desc = asc)) by naive_solver.
    repeat split; try done; intros; congruence.
Qed.

(** ** Difficulty badges *)

Lemma getNormalizedDifficulty_cases (difficulty : string) :
  (getNormalizedDifficulty difficulty = "Easy"
   ∧ toLowerCase (trim difficulty) = "easy")
  ∨ (getNormalizedDifficulty difficulty = "Medium"
     ∧ toLowerCase (trim difficulty) = "medium")
  ∨ (getNormalizedDifficulty difficulty = "Hard"
     ∧ toLowerCase (trim difficulty) = "hard")
  ∨ (getNormalizedDifficulty difficulty = difficulty
     ∧ toLowerCase (trim difficulty) ≠ "easy"
     ∧ toLowerCase (trim difficulty) ≠ "medium"
     ∧ toLowerCase (trim difficulty) ≠ "hard").
Proof.
  unfold getNormalizedDifficulty.
  destruct (decide (difficulty = "")) as [->|Hne].
  { right. right. right. by vm_compute. }
  repeat case_decide; naive_solver.
Qed.

(** X2: normalising a difficulty is idempotent; the result is "Easy",
    "Medium" or "Hard" exactly when the field reads so once it is trimmed
    and lower-cased, and it is the field itself in every other case. *)
Theorem getNormalizedDifficulty_normal (difficulty : string) :
  getNormalizedDifficulty (getNormalizedDifficulty difficulty)
  = getNormalizedDifficulty difficulty
  ∧ (getNormalizedDifficulty difficulty = "Easy"
     ↔ toLowerCase (trim difficulty) = "easy")
  ∧ (getNormalizedDifficulty difficulty = "Medium"
     ↔ toLowerCase (trim difficulty) = "medium")
  ∧ (getNormalizedDifficulty difficulty = "Hard"
     ↔ toLowerCase (trim difficulty) = "hard")
  ∧ (toLowerCase (trim difficulty) ≠ "easy" →
     toLowerCase (trim difficulty) ≠ "medium" →
     toLowerCase (trim difficulty) ≠ "hard" →
     getNormalizedDifficulty difficulty = difficulty).
Proof.
  destruct (getNormalizedDifficulty_cases difficulty)
    as [[Hn Hl]|[[Hn Hl]|[[Hn Hl]|(Hn & He & Hm & Hh)]]].
  - rewrite Hn, Hl. repeat split; try done; try (by vm_compute).
  - rewrite Hn, Hl. repeat split; try done; try (by vm_compute).
  - rewrite Hn, Hl. repeat split; try done; try (by vm_compute).
  - rewrite !Hn. repeat split; try done.
    + intros ->. by vm_compute in He.
    + intros ->. by vm_compute in Hm.
    + intros ->. by vm_compute in Hh.
Qed.

(** The badge of a field that is written in its normal form. *)
Lemma difficultyBadge_of_raw (q : Question) :
  (Difficulty q = "Easy" → difficultyBadge q = EASY)
  ∧ (Difficulty q = "Medium" → difficultyBadge q = MEDIUM)
  ∧ (Difficulty q = "Hard" → difficultyBadge q = HARD).
Proof.
  unfold difficultyBadge.
  repeat split; intros ->; by vm_compute.
Qed.

(** ** More on the displayed list *)

Lemma filter_everything {A : Type} (P : A → Prop) `{∀ x, Decision (P x)}
    (l : list A) :
  (∀ x, P x) → filter P l = l.
Proof.
  intros HP. induction l as [|x l IH]; [done|].
  by rewrite filter_cons_True, IH.
Qed.

Lemma filter_fmap_invariant {A : Type} (P : A → Prop) `{∀ x, Decision (P x)}
    (f : A → A) (l : list A) :
  (∀ x, P (f x) ↔ P x) → filter P (f <$> l) = f <$> filter P l.
Proof.
  intros HP. induction l as [|x l IH]; [done|].
  rewrite fmap_cons. destruct (decide (P x)) as [Hx|Hx].
  - rewrite !filter_cons_True by (done || by apply HP).
    by rewrite fmap_cons, IH.
  - rewrite !filter_cons_False by (done || by rewrite HP). done.
Qed.

Section SortFacts.
Context {A : Type} (comparefn : A → A → Number).

Lemma insertSorted_fmap (f : A → A) (x : A) (l : list A) :
  (∀ y z, comparefn (f y) (f z) = comparefn y z) →
  insertSorted comparefn (f x) (f <$> l) = f <$> insertSorted comparefn x l.
Proof.
  intros Hf. induction l as [|y l IH]; [done|].
  rewrite fmap_cons. simpl. rewrite Hf.
  destruct (isPositive (comparefn x y)); [|done].
  by rewrite fmap_cons, IH.
Qed.

(** A change of the elements that the comparator does not see commutes
    with the sort. *)
Lemma sort_fmap (f : A → A) (l : list A) :
  (∀ y z, comparefn (f y) (f z) = comparefn y z) →
  sort comparefn (f <$> l) = f <$> sort comparefn l.
Proof.
  intros Hf. induction l as [|x l IH]; [done|].
  rewrite fmap_cons. simpl. fold (sort comparefn (f <$> l)).
  fold (sort comparefn l). rewrite IH. by apply insertSorted_fmap.
Qed.

Lemma insertSorted_filter_other (P : A → Prop) `{∀ x, Decision (P x)}
    (x : A) (l : list A) :
  ¬ P x → filter P (insertSorted comparefn x l) = filter P l.
Proof.
  intros Hx. induction l as [|y l IH]; simpl.
  - by rewrite filter_cons_False.
  - destruct (isPositive (comparefn x y)).
    + destruct (decide (P y)).
      * by rewrite !filter_cons_True, IH.
      * by rewrite !filter_cons_False, IH.
    + by rewrite filter_cons_False.
Qed.

Lemma insertSorted_filter_tied (P : A → Prop) `{∀ x, Decision (P x)}
    (x : A) (l : list A) :
  P x →
  (∀ y, y ∈ l → P y → isPositive (comparefn x y) = false) →
  filter P (insertSorted comparefn x l) = x :: filter P l.
Proof.
  intros Hx. induction l as [|y l IH]; intros Htied; simpl.
  - by rewrite filter_cons_True.
  - destruct (isPositive (comparefn x y)) eqn:Hpos.
    + assert (¬ P y) as Hy.
      { intros Hy. rewrite Htied in Hpos; [done|by left|done]. }
      rewrite !(filter_cons_False _ y) by done.
      apply IH. intros z Hz. apply Htied. by right.
    + by rewrite filter_cons_True.
Qed.

(** The sort is stable: elements that the comparator never moves behind
    one another keep their order. *)
Lemma sort_stable (P : A → Prop) `{∀ x, Decision (P x)} (l : list A) :
  (∀ x y, x ∈ l → y ∈ l → P x → P y → isPositive (comparefn x y) = false) →
  filter P (sort comparefn l) = filter P l.
Proof.
  induction l as [|x l IH]; intros Htied; [done|].
  simpl. fold (sort comparefn l).
  assert (IH' : filter P (sort comparefn l) = filter P l).
  { apply IH. intros y z Hy Hz. apply Htied; by right. }
  destruct (decide (P x)) as [Hx|Hx].
  - rewrite insertSorted_filter_tied, IH', filter_cons_True; try done.
    intros y Hy. rewrite sort_Permutation in Hy.
    apply Htied; [by left|by right|done].
  - by rewrite insertSorted_filter_other, IH', filter_cons_False.
Qed.

(** Where the comparator never returns a positive number the sort changes
    nothing. *)
Lemma sort_all_tied (l : list A) :
  (∀ x y, x ∈ l → y ∈ l → isPositive (comparefn x y) = false) →
  sort comparefn l = l.
Proof.
  intros Htied.
  rewrite <- (filter_everything (λ _, True) (sort comparefn l)) by done.
  rewrite <- (filter_everything (λ _, True) l) at 2 by done.
  apply sort_stable. intros x y Hx Hy _ _. by apply Htied.
Qed.
End SortFacts.

Section SortOrdersWeakly.
Context {A : Type} (comparefn : A → A → Number) (S : A → Prop).
Context (positive_asym : ∀ x y, S x → S y →
           isPositive (comparefn x y) = true →
           isPositive (comparefn y x) = false).
Context (not_positive_trans : ∀ x y z, S x → S y → S z →
           isPositive (comparefn x y) = false →
           isPositive (comparefn y z) = false →
           isPositive (comparefn x z) = false).

Lemma insertSorted_weakly (x : A) (l : list A) :
  S x → Forall S l →
  StronglySorted (λ a b, isPositive (comparefn a b) = false) l →
  StronglySorted (λ a b, isPositive (comparefn a b) = false)
    (insertSorted comparefn x l).
Proof.
  intros Hx HS Hl. induction Hl as [|y l Hl IH Hy]; simpl.
  { by repeat constructor. }
  apply Forall_cons in HS as [HSy HS].
  destruct (isPositive (comparefn x y)) eqn:Hpos.
  - constructor; [by apply IH|].
    rewrite insertSorted_Permutation. constructor; [|done].
    by apply positive_asym.
  - constructor; [by constructor|].
    constructor; [done|].
    apply Forall_forall. intros z Hz.
    apply (not_positive_trans x y z); try done.
    + by eapply Forall_forall in HS.
    + by eapply Forall_forall in Hy.
Qed.

(** For a comparator that is a weak order on the elements, no element of
    the sorted list has to go behind a later one. *)
Lemma sort_weakly (l : list A) :
  Forall S l →
  StronglySorted (λ a b, isPositive (comparefn a b) = false)
    (sort comparefn l).
Proof.
  induction 1 as [|x l Hx HS IH]; simpl; [constructor|].
  apply insertSorted_weakly; [done| |done].
  by rewrite sort_Permutation.
Qed.
End SortOrdersWeakly.

Lemma StronglySorted_impl {A : Type} (R R' : A → A → Prop) (l : list A) :
  (∀ x y, R x y → R' x y) → StronglySorted R l → StronglySorted R' l.
Proof.
  intros HR. induction 1 as [|x l Hl IH Hx]; constructor; [done|].
  eapply Forall_impl; [exact Hx|]. intros y. apply HR.
Qed.

(** On numbers, "not greater" is transitive. *)
Lemma not_positive_minus_trans (x y z : Number) :
  isNumeric x = true → isNumeric y = true → isNumeric z = true →
  isPositive (minus x y) = false → isPositive (minus y z) = false →
  isPositive (minus x z) = false.
Proof.
  destruct x as [|[]|a], y as [|[]|b], z as [|[]|c]; try done.
  intros _ _ _.
  change (minus (Finite a) (Finite b)) with (Finite (a - b)).
  change (minus (Finite b) (Finite c)) with (Finite (b - c)).
  change (minus (Finite a) (Finite c)) with (Finite (a - c)).
  rewrite <- !not_true_iff_false, !isPositive_Finite. intros Hab Hbc. lra.
Qed.

Section DisplayedMore.
Context (String_toLowerCase : string → string).
Context (parseFloat : string → Number) (localeCompare : string → string → Z).
Context (JSON_stringify : gmap string bool → string).

Abbreviation filteredQuestions :=
  (filteredQuestions String_toLowerCase parseFloat localeCompare).
Abbreviation compareQuestions := (compareQuestions parseFloat localeCompare).
Abbreviation matchesSearch := (matchesSearch String_toLowerCase).
Abbreviation selectedQuestions := (selectedQuestions String_toLowerCase).
Abbreviation toggleQuestion := (toggleQuestion JSON_stringify).
Abbreviation frequency q := (parseFloat (Frequency q)).

(** The effect sorts the selected records. *)
Lemma filteredQuestions_selected (qs : list Question)
    (searchTerm difficultyFilter : string) (sortConfig : SortConfig) :
  filteredQuestions qs searchTerm difficultyFilter sortConfig
  = sort (compareQuestions sortConfig)
      (selectedQuestions qs searchTerm difficultyFilter).
Proof.
  unfold filteredQuestions, selectedQuestions. f_equal.
  assert (Hsearch :
    (if decide (searchTerm ≠ "")
     then filter (λ q, matchesSearch searchTerm q) qs else qs)
    = filter (λ q, searchTerm = "" ∨ matchesSearch searchTerm q = true) qs).
  { destruct (decide (searchTerm ≠ "")) as [Hs|Hs%dec_stable].
    - apply list_filter_iff. intros q. rewrite Is_true_true. naive_solver.
    - symmetry. apply filter_everything. intros q. by left. }
  rewrite Hsearch.
  destruct (decide (difficultyFilter ≠ "all")) as [Hd|Hd%dec_stable].
  - apply list_filter_iff. intros q. naive_solver.
  - symmetry. apply filter_everything. intros q. by left.
Qed.

(** The comparator does not look at the completed flag. *)
Lemma compareQuestions_withCompleted (sortConfig : SortConfig)
    (a b : Question) (x y : bool) :
  compareQuestions sortConfig (withCompleted a x) (withCompleted b y)
  = compareQuestions sortConfig a b.
Proof. by destruct sortConfig as [[] []]. Qed.

(** The displayed list after a change of flags is the displayed list with
    the flags changed. *)
Lemma filteredQuestions_flags (f : Question → Question) (qs : list Question)
    (searchTerm difficultyFilter : string) (sortConfig : SortConfig) :
  (∀ q, ∃ b, f q = withCompleted q b) →
  filteredQuestions (f <$> qs) searchTerm difficultyFilter sortConfig
  = f <$> filteredQuestions qs searchTerm difficultyFilter sortConfig.
Proof.
  intros Hf. rewrite !filteredQuestions_selected. unfold selectedQuestions.
  rewrite !filter_fmap_invariant.
  - apply sort_fmap. intros a b.
    destruct (Hf a) as [x ->], (Hf b) as [y ->].
    apply compareQuestions_withCompleted.
  - intros q. by destruct (Hf q) as [b ->].
  - intros q. by destruct (Hf q) as [b ->].
Qed.

(** X4: whatever the sort configuration and whatever the comparator
    returns, the displayed list is a rearrangement of the records that pass
    the two filters: the sort neither drops nor repeats a record, and the
    list is never longer than the record set. *)
Theorem displayed_is_rearranged_selection (qs : list Question)
    (searchTerm difficultyFilter : string) (sortConfig : SortConfig) :
  filteredQuestions qs searchTerm difficultyFilter sortConfig
  ≡ₚ selectedQuestions qs searchTerm difficultyFilter
  ∧ (length (filteredQuestions qs searchTerm difficultyFilter sortConfig)
     ≤ length qs)%nat
  ∧ (NoDup qs →
     NoDup (filteredQuestions qs searchTerm difficultyFilter sortConfig)).
Proof.
  rewrite filteredQuestions_selected.
  split; [apply sort_Permutation|].
  split.
  - rewrite sort_Permutation. unfold selectedQuestions.
    etrans; [apply length_filter|apply length_filter].
  - intros Hqs. rewrite sort_Permutation. unfold selectedQuestions.
    by apply NoDup_filter, NoDup_filter.
Qed.

(** X5: the sort keeps ties in place.  When every frequency of the record
    set is a number, the records whose frequency is one given value appear,
    under either direction of the sort by frequency, in the order they have
    in the record set.  Sorting by the completed column, for which the
    comparator returns 0 for every pair, leaves the selected records in the
    order of the record set. *)
Theorem frequency_sort_is_stable (qs : list Question)
    (searchTerm difficultyFilter : string) (dir : Direction) :
  (forallb (λ q, isNumeric (frequency q)) qs = true →
   ∀ v : Number,
     filter (λ q, sameNumber (frequency q) v = true)
       (filteredQuestions qs searchTerm difficultyFilter
          {| key := KFrequency; direction := dir |})
     = filter (λ q, sameNumber (frequency q) v = true)
         (selectedQuestions qs searchTerm difficultyFilter))
  ∧ filteredQuestions qs searchTerm difficultyFilter
      {| key := KCompleted; direction := dir |}
    = selectedQuestions qs searchTerm difficultyFilter.
Proof.
  rewrite !filteredQuestions_selected.
  assert (Hsame : ∀ v x y : Number,
            sameNumber x v = true → sameNumber y v = true →
            isPositive (minus x y) = false).
  { intros v x y. destruct x as [|[]|a], y as [|[]|b], v as [|[]|c]; try done.
    intros Ha Hb. simpl in Ha, Hb.
    apply Qeq_bool_eq in Ha. apply Qeq_bool_eq in Hb.
    change (minus (Finite a) (Finite b)) with (Finite (a - b)).
    apply not_true_iff_false. rewrite isPositive_Finite. lra. }
  split.
  - intros _ v. apply sort_stable. intros x y _ _ Hx Hy.
    destruct dir; by apply (Hsame v).
  - apply sort_all_tied. intros x y _ _. by destruct dir.
Qed.

(** X6: when every frequency of the record set is a number, the ascending
    sort by frequency shows no record before one of smaller frequency, and
    the descending sort no record before one of larger frequency; equal
    frequencies are allowed. *)
Theorem numeric_frequencies_are_ordered (qs : list Question)
    (searchTerm difficultyFilter : string) :
  forallb (λ q, isNumeric (frequency q)) qs = true →
  StronglySorted (λ a b, ¬ ltNumber (frequency b) (frequency a))
    (filteredQuestions qs searchTerm difficultyFilter
       {| key := KFrequency; direction := asc |})
  ∧ StronglySorted (λ a b, ¬ ltNumber (frequency a) (frequency b))
      (filteredQuestions qs searchTerm difficultyFilter
         {| key := KFrequency; direction := desc |}).
Proof.
  intros Hnumeric. rewrite !filteredQuestions_selected.
  assert (HS : Forall (λ q, isNumeric (frequency q) = true)
                 (selectedQuestions qs searchTerm difficultyFilter)).
  { apply Forall_forall. intros q Hq. unfold selectedQuestions in Hq.
    apply list_elem_of_filter in Hq as [_ Hq].
    apply list_elem_of_filter in Hq as [_ Hq].
    rewrite forallb_forall in Hnumeric.
    by apply Hnumeric, list_elem_of_In. }
  split.
  - eapply StronglySorted_impl;
      [|apply (sort_weakly _ (λ q, isNumeric (frequency q) = true)); [| |exact HS]].
    + intros a b Hab Hlt. unfold ltNumber in Hlt.
      change (isPositive (minus (frequency a) (frequency b)) = false) in Hab.
      congruence.
    + intros x y _ _ Hxy. apply not_true_iff_false. intros Hyx.
      exact (ltNumber_asym _ _ Hxy Hyx).
    + intros x y z Hx Hy Hz. by apply not_positive_minus_trans.
  - eapply StronglySorted_impl;
      [|apply (sort_weakly _ (λ q, isNumeric (frequency q) = true)); [| |exact HS]].
    + intros a b Hab Hlt. unfold ltNumber in Hlt.
      change (isPositive (minus (frequency b) (frequency a)) = false) in Hab.
      congruence.
    + intros x y _ _ Hxy. apply not_true_iff_false. intros Hyx.
      exact (ltNumber_asym _ _ Hxy Hyx).
    + intros x y z Hx Hy Hz Hxy Hyz. simpl in *.
      by apply (not_positive_minus_trans _ (frequency y)).
Qed.

(** X7: ticking a checkbox or resetting the progress never hides, shows or
    moves a row: the displayed list after the operation is the displayed
    list of before with the flags changed, under every search term,
    difficulty filter and sort configuration. *)
Theorem flags_do_not_move_rows (title : string) (st : App)
    (searchTerm difficultyFilter : string) (sortConfig : SortConfig) :
  filteredQuestions (questions (toggleQuestion title st))
    searchTerm difficultyFilter sortConfig
  = flipIf title
      <$> filteredQuestions (questions st) searchTerm difficultyFilter sortConfig
  ∧ filteredQuestions (questions (resetProgress st))
      searchTerm difficultyFilter sortConfig
    = (λ q, withCompleted q false)
        <$> filteredQuestions (questions st) searchTerm difficultyFilter sortConfig
  ∧ Title <$> filteredQuestions (questions (toggleQuestion title st))
                searchTerm difficultyFilter sortConfig
    = Title <$> filteredQuestions (questions st)
                  searchTerm difficultyFilter sortConfig.
Proof.
  assert (Htoggle :
    filteredQuestions (questions (toggleQuestion title st))
      searchTerm difficultyFilter sortConfig
    = flipIf title
        <$> filteredQuestions (questions st) searchTerm difficultyFilter sortConfig).
  { apply (filteredQuestions_flags (flipIf title)). intros q. unfold flipIf.
    case_decide; [by eexists|]. exists (completed q).
    by rewrite withCompleted_same. }
  split; [done|]. split.
  - apply (filteredQuestions_flags (λ q, withCompleted q false)).
    intros q. by eexists.
  - rewrite Htoggle. apply flipIf_titles.
Qed.

(** X13: a longer search term never shows more.  A record displayed for
    a term written in ASCII is displayed for every stretch of that term, in
    particular for the term before its last characters were typed; the
    title and the topics may be any text.  ([toLowerCase] is assumed to
    fold ASCII text letter by letter.) *)
Theorem longer_search_term_narrows (qs : list Question)
    (before searchTerm after difficultyFilter : string)
    (sortConfig : SortConfig) (q : Question) :
  foldsAscii String_toLowerCase →
  isAscii (before +:+ searchTerm +:+ after) = true →
  q ∈ filteredQuestions qs (before +:+ searchTerm +:+ after)
        difficultyFilter sortConfig →
  q ∈ filteredQuestions qs searchTerm difficultyFilter sortConfig.
Proof.
  intros Hfolds Hascii.
  rewrite !(elem_of_filteredQuestions String_toLowerCase parseFloat localeCompare).
  intros (Hq & Hterm & Hd). split; [done|]. split; [|done].
  destruct Hterm as [Hempty|Hmatch].
  - left. apply append_empty_l in Hempty as Hbefore. subst before.
    rewrite append_nil in Hempty. by apply append_empty_l in Hempty.
  - right. unfold matchesSearch in *.
    rewrite (Hfolds _ Hascii), !toLowerCase_append in Hmatch.
    rewrite !isAscii_append, !andb_true_iff in Hascii.
    destruct Hascii as (_ & Hterm & _). rewrite (Hfolds _ Hterm).
    apply orb_true_iff in Hmatch as [Htitle|Htopics]; apply orb_true_iff.
    + left. by eapply includes_stretch.
    + right. by eapply includes_stretch.
Qed.

(** X3: a row displayed under the difficulty filter "Easy", "Medium" or
    "Hard" carries the badge of that name.  (The converse fails: a row
    spelled "easy" carries the badge and is not displayed.) *)
Theorem displayed_rows_carry_the_badge (qs : list Question)
    (searchTerm difficultyFilter : string) (sortConfig : SortConfig)
    (q : Question) :
  q ∈ filteredQuestions qs searchTerm difficultyFilter sortConfig →
  (difficultyFilter = "Easy" → difficultyBadge q = EASY)
  ∧ (difficultyFilter = "Medium" → difficultyBadge q = MEDIUM)
  ∧ (difficultyFilter = "Hard" → difficultyBadge q = HARD).
Proof.
  rewrite (elem_of_filteredQuestions String_toLowerCase parseFloat localeCompare).
  intros (_ & _ & Hd).
  destruct (difficultyBadge_of_raw q) as (Heasy & Hmedium & Hhard).
  repeat split; intros ->; destruct Hd as [Hall|Hd]; try done; auto.
Qed.
End DisplayedMore.

(** ** More on the progress store *)

Lemma flipIf_comm (title title' : string) (q : Question) :
  flipIf title (flipIf title' q) = flipIf title' (flipIf title q).
Proof.
  unfold flipIf.
  destruct (decide (Title q = title)) as [Ht|Ht],
           (decide (Title q = title')) as [Ht'|Ht']; simpl;
    rewrite ?decide_True by done; rewrite ?decide_False by done; done.
Qed.

Lemma consistentFlags_by_title (f : string → bool) (qs : list Question) :
  consistentFlags ((λ q, withCompleted q (f (Title q))) <$> qs).
Proof.
  intros q q' (r & -> & _)%list_elem_of_fmap (r' & -> & _)%list_elem_of_fmap.
  simpl. by intros ->.
Qed.

Lemma consistentFlags_flipIf (title : string) (qs : list Question) :
  consistentFlags qs → consistentFlags (flipIf title <$> qs).
Proof.
  intros Hqs q q' (r & -> & Hr)%list_elem_of_fmap (r' & -> & Hr')%list_elem_of_fmap.
  rewrite !flipIf_Title. intros Htitle. unfold flipIf.
  rewrite <- Htitle. case_decide; simpl; by rewrite (Hqs r r').
Qed.

(** With consistent flags every record finds its own flag in the progress
    object. *)
Lemma completedQuestions_consistent (qs : list Question) (q : Question) :
  consistentFlags qs → q ∈ qs →
  completedQuestions qs !! Title q = Some (completed q).
Proof.
  intros Hqs Hq. rewrite completedQuestions_lookup.
  destruct (last (filter (λ q', Title q' = Title q) qs)) as [q'|] eqn:Hlast.
  - apply last_Some_elem_of, list_elem_of_filter in Hlast as [Htitle Hq'].
    simpl. f_equal. by apply Hqs.
  - apply last_None in Hlast.
    by apply (filter_nil_not_elem_of _ _ q) in Hlast.
Qed.

Section StoreMore.
Context (JSON_parse : string → Exception + gmap string bool).
Context (JSON_stringify : gmap string bool → string).

Abbreviation loadQuestions := (loadQuestions JSON_parse).
Abbreviation toggleQuestion := (toggleQuestion JSON_stringify).
Abbreviation importProgress := (importProgress JSON_parse JSON_stringify).
Abbreviation step := (step JSON_parse JSON_stringify).
Abbreviation run := (run JSON_parse JSON_stringify).

Lemma step_consistentFlags (st : App) (event : Event) :
  consistentFlags (questions st) → consistentFlags (questions (step st event)).
Proof.
  intros Hst. destruct event as [rows|title| | |[text|]]; simpl; try done.
  - unfold loadQuestions. destruct (JSON_parse _) as [e|saved]; [done|].
    apply (consistentFlags_by_title (λ t, or_false (getProperty saved t))).
  - by apply consistentFlags_flipIf.
  - apply (consistentFlags_by_title (λ _, false)).
  - destruct (JSON_parse text) as [e|imported]; [done|].
    apply (consistentFlags_by_title (λ t, or_false (getProperty imported t))).
Qed.

Lemma run_consistentFlags (events : list Event) (st : App) :
  consistentFlags (questions st) →
  consistentFlags (questions (run events st)).
Proof.
  revert st. induction events as [|event events IH]; intros st Hst; [done|].
  simpl. by apply IH, step_consistentFlags.
Qed.

Lemma initialApp_consistentFlags (storage : gmap string string) :
  consistentFlags (questions (initialApp storage)).
Proof. intros q q' Hq. by apply elem_of_nil in Hq. Qed.

(** The records a load would produce from a saved object that agrees with
    the records are those records. *)
Lemma reload_agreeing (saved : gmap string bool) (rows qs : list Question) :
  sameRows rows qs →
  (∀ q, q ∈ qs → saved !! Title q = Some (completed q)) →
  (λ q, withCompleted q (or_false (getProperty saved (Title q)))) <$> rows = qs.
Proof.
  intros Hrows Hsaved.
  rewrite (recompleted_same_rows (λ t, or_false (getProperty saved t)) _ _ Hrows).
  rewrite <- (list_fmap_id qs) at 2. apply list_fmap_ext. intros i q Hq.
  simpl. rewrite (or_false_own _ _ (completed q)).
  - apply withCompleted_same.
  - apply Hsaved. by eapply list_elem_of_lookup_2.
Qed.

Lemma loadQuestions_saved (text : string) (saved : gmap string bool)
    (storage : gmap string string) (rows : list Question) :
  storage !! slot = Some text → text ≠ "" → JSON_parse text = inr saved →
  questions (loadQuestions rows (initialApp storage))
  = (λ q, withCompleted q (or_false (getProperty saved (Title q)))) <$> rows.
Proof.
  intros Hslot Htext Hparse. unfold loadQuestions, getItemOrEmptyObject.
  simpl. rewrite Hslot, decide_False, Hparse by done. done.
Qed.

(** X8: ticking two checkboxes in either order gives the same state, the
    records and the storage alike. *)
Theorem toggles_commute (title title' : string) (st : App) :
  toggleQuestion title (toggleQuestion title' st)
  = toggleQuestion title' (toggleQuestion title st).
Proof.
  assert (Hqs : flipIf title <$> (flipIf title' <$> questions st)
                = flipIf title' <$> (flipIf title <$> questions st)).
  { rewrite <- !list_fmap_compose. apply list_fmap_ext.
    intros _ q _. apply flipIf_comm. }
  unfold toggleQuestion. simpl. rewrite !insert_insert_eq, Hqs. done.
Qed.

(** X14: a reset absorbs what came before it: resetting after a toggle or
    after the import of a JSON file gives the state that resetting at once
    gives, and a second reset changes nothing. *)
Theorem reset_absorbs (title : string) (st : App) :
  resetProgress (toggleQuestion title st) = resetProgress st
  ∧ resetProgress (resetProgress st) = resetProgress st
  ∧ (∀ (text : string) (imported : gmap string bool),
       JSON_parse text = inr imported →
       resetProgress (importProgress (Some text) st) = resetProgress st).
Proof.
  assert (Hagain : ∀ (f : Question → Question) (qs : list Question),
            (∀ q, ∃ b, f q = withCompleted q b) →
            (λ q, withCompleted q false) <$> (f <$> qs)
            = (λ q, withCompleted q false) <$> qs).
  { intros f qs Hf. rewrite <- list_fmap_compose. apply list_fmap_ext.
    intros _ q _. simpl. by destruct (Hf q) as [b ->]. }
  split; [|split].
  - unfold resetProgress, toggleQuestion. simpl.
    rewrite delete_insert_eq, Hagain; [done|].
    intros q. unfold flipIf. case_decide; [by eexists|].
    exists (completed q). by rewrite withCompleted_same.
  - unfold resetProgress. simpl.
    rewrite delete_delete_eq, Hagain; [done|]. intros q. by eexists.
  - intros text imported Hparse. unfold resetProgress, importProgress.
    rewrite Hparse. simpl.
    rewrite delete_insert_eq, Hagain; [done|]. intros q. by eexists.
Qed.

(** X16: toggling a title that no record carries changes no record, and
    still writes the progress object of the unchanged records to the
    storage. *)
Theorem toggle_of_absent_title (title : string) (st : App) :
  title ∉ (Title <$> questions st) →
  questions (toggleQuestion title st) = questions st
  ∧ localStorage (toggleQuestion title st) !! slot
    = Some (JSON_stringify (completedQuestions (questions st))).
Proof.
  intros Habsent.
  assert (Hqs : flipIf title <$> questions st = questions st).
  { apply flipIf_absent.
    destruct (filter (λ q, Title q = title) (questions st)) as [|q l] eqn:Hf;
      [done|].
    assert (q ∈ filter (λ q, Title q = title) (questions st)) as Hq
      by (rewrite Hf; by left).
    apply list_elem_of_filter in Hq as [Htitle Hq].
    destruct Habsent. apply list_elem_of_fmap. eauto. }
  unfold toggleQuestion. simpl. rewrite Hqs, lookup_insert_eq. done.
Qed.

(** X9: whatever happens to the component after the page has been opened
    (loads, clicks on checkboxes, resets, downloads, imports of any file),
    records with the same title carry the same flag, and therefore the
    progress object that a toggle saves and a download exports holds, for
    every record, that record's own flag. *)
Theorem flags_stay_consistent (storage : gmap string string)
    (events : list Event) :
  let st := run events (initialApp storage) in
  consistentFlags (questions st)
  ∧ (∀ q : Question, q ∈ questions st →
       completedQuestions (questions st) !! Title q = Some (completed q)).
Proof.
  intros st.
  assert (Hst : consistentFlags (questions st)).
  { apply run_consistentFlags, initialApp_consistentFlags. }
  split; [done|]. intros q Hq. by apply completedQuestions_consistent.
Qed.

(** X10: progress survives a reload.  After any history of the component
    that ends with a click on a checkbox, opening the page again on the
    same rows shows exactly the records of before, flags included.
    ([JSON.parse] is assumed to read back the object that [JSON.stringify]
    wrote, from a text that is not empty.) *)
Theorem progress_survives_reload (storage : gmap string string)
    (events : list Event) (title : string) (rows : list Question) :
  let st := toggleQuestion title (run events (initialApp storage)) in
  let written := completedQuestions (questions st) in
  JSON_parse (JSON_stringify written) = inr written →
  JSON_stringify written ≠ "" →
  sameRows rows (questions st) →
  questions (loadQuestions rows (initialApp (localStorage st)))
  = questions st.
Proof.
  intros st written Hparse Htext Hrows.
  rewrite (loadQuestions_saved (JSON_stringify written) written);
    [|by apply lookup_insert_eq|done|done].
  apply reload_agreeing; [done|].
  intros q Hq. apply completedQuestions_consistent; [|done].
  apply consistentFlags_flipIf, run_consistentFlags, initialApp_consistentFlags.
Qed.

(** X11: the import of a JSON file.  Every record gets the flag the file
    holds for its title.  A record for whose title the file has no entry
    gets false, unless the title is the name of a member of
    [Object.prototype]: then the lookup finds the inherited member and the
    record counts as completed.  The parsed object is saved as it is; no
    alert is shown.  Importing the same file again changes nothing, and the
    flags the records had before the import do not matter. *)
Theorem import_of_valid_json (text : string) (imported : gmap string bool)
    (st : App) :
  JSON_parse text = inr imported →
  let st' := importProgress (Some text) st in
  (∀ (i : nat) (q : Question), questions st !! i = Some q →
     questions st' !! i
     = Some (withCompleted q
               (default (bool_decide (Title q ∈ Object_prototype))
                  (imported !! Title q))))
  ∧ (∀ (i : nat) (q : Question), questions st !! i = Some q →
       Title q ∉ Object_prototype →
       questions st' !! i
       = Some (withCompleted q (default false (imported !! Title q))))
  ∧ localStorage st' = <[slot := JSON_stringify imported]> (localStorage st)
  ∧ alerts st' = alerts st
  ∧ importProgress (Some text) st' = st'
  ∧ (∀ st2 : App, sameRows (questions st2) (questions st) →
       questions (importProgress (Some text) st2) = questions st').
Proof.
  intros Hparse st'.
  assert (Hst' : st'
    = {| questions := (λ q, withCompleted q (or_false (getProperty imported (Title q))))
                        <$> questions st;
         localStorage := <[slot := JSON_stringify imported]> (localStorage st);
         alerts := alerts st |}).
  { subst st'. unfold importProgress. by rewrite Hparse. }
  assert (Hflags : ∀ (i : nat) (q : Question), questions st !! i = Some q →
            questions st' !! i
            = Some (withCompleted q
                      (default (bool_decide (Title q ∈ Object_prototype))
                         (imported !! Title q)))).
  { intros i q Hq. rewrite Hst'. simpl. rewrite list_lookup_fmap, Hq. simpl.
    by rewrite or_false_getProperty. }
  split; [done|]. split; [|split; [|split; [|split]]].
  - intros i q Hq Hown. rewrite (Hflags i q Hq).
    by rewrite (bool_decide_eq_false_2 _ Hown).
  - by rewrite Hst'.
  - by rewrite Hst'.
  - rewrite Hst' at 2. unfold importProgress. rewrite Hparse, Hst'. simpl.
    rewrite insert_insert_eq. f_equal.
    rewrite <- list_fmap_compose. by apply list_fmap_ext.
  - intros st2 Hrows. rewrite Hst'. unfold importProgress. rewrite Hparse.
    simpl.
    exact (recompleted_same_rows (λ t, or_false (getProperty imported t))
             _ _ Hrows).
Qed.

(** X12: imported progress survives a reload as well: after the import of
    a JSON file, opening the page again on the same rows shows exactly the
    records the import produced, also when the file has entries for titles
    that are not in the data set.  ([JSON.parse] is assumed to read back
    the object as [JSON.stringify] saved it, from a text that is not
    empty.) *)
Theorem import_survives_reload (text : string) (imported : gmap string bool)
    (st : App) (rows : list Question) :
  JSON_parse text = inr imported →
  JSON_parse (JSON_stringify imported) = inr imported →
  JSON_stringify imported ≠ "" →
  sameRows rows (questions st) →
  questions
    (loadQuestions rows
       (initialApp (localStorage (importProgress (Some text) st))))
  = questions (importProgress (Some text) st).
Proof.
  intros Hparse Hback Htext Hrows.
  rewrite (loadQuestions_saved (JSON_stringify imported) imported);
    [| |done|done].
  - unfold importProgress. rewrite Hparse. simpl.
    exact (recompleted_same_rows (λ t, or_false (getProperty imported t))
             _ _ Hrows).
  - unfold importProgress. rewrite Hparse. simpl. apply lookup_insert_eq.
Qed.

(** X15: what the start-up does with a storage it cannot use.  An absent
    key and an empty text both make the load fall back to the empty
    object: every row gets the flag false, except a row whose title is the
    name of a member of [Object.prototype], which comes out completed.  A
    text that is not JSON makes the load fail before any state is set: no
    record is shown and no alert either; after a reset the next load is
    that of an absent key.  ([JSON.parse] is assumed to read the text of
    the empty object.) *)
Theorem load_of_unusable_storage (storage : gmap string string)
    (rows : list Question) :
  JSON_parse "{}" = inr ∅ →
  (storage !! slot = None ∨ storage !! slot = Some "" →
   questions (loadQuestions rows (initialApp storage))
   = (λ q, withCompleted q (bool_decide (Title q ∈ Object_prototype))) <$> rows
   ∧ (Forall (λ q, Title q ∉ Object_prototype) rows →
      questions (loadQuestions rows (initialApp storage))
      = (λ q, withCompleted q false) <$> rows))
  ∧ (∀ (text : string) (e : Exception),
       storage !! slot = Some text → text ≠ "" → JSON_parse text = inl e →
       loadQuestions rows (initialApp storage) = initialApp storage
       ∧ questions
           (loadQuestions rows
              (initialApp
                 (localStorage
                    (resetProgress (loadQuestions rows (initialApp storage))))))
         = questions (loadQuestions rows (initialApp ∅))).
Proof.
  intros Hempty. split.
  - intros Hslot.
    rewrite (loadQuestions_fresh JSON_parse) by done.
    split; [done|]. intros Hrows.
    apply list_fmap_ext. intros i q Hq. simpl.
    rewrite bool_decide_eq_false_2; [done|].
    eapply Forall_forall in Hrows; [exact Hrows|].
    by eapply list_elem_of_lookup_2.
  - intros text e Hslot Htext Hparse.
    assert (Hload : loadQuestions rows (initialApp storage) = initialApp storage).
    { unfold loadQuestions, getItemOrEmptyObject. simpl.
      by rewrite Hslot, decide_False, Hparse. }
    split; [done|]. rewrite Hload.
    rewrite !(loadQuestions_fresh JSON_parse); try done.
    + left. apply lookup_empty.
    + left. apply lookup_delete_eq.
Qed.
End StoreMore.

(** ** The added properties at sample data *)

(** X3 at the scenario's data under the filter "Hard". *)
Lemma displayed_rows_carry_the_badge_witness :
  mergeKLists ∈ filteredQuestions toLowerCase parseDecimal compareCodes
                  [twoSum; mergeKLists] "" "Hard" defaultSort
  ∧ ("Hard" = "Hard" → difficultyBadge mergeKLists = HARD).
Proof.
  assert (Hshown : mergeKLists ∈ filteredQuestions toLowerCase parseDecimal compareCodes
                                   [twoSum; mergeKLists] "" "Hard" defaultSort).
  { apply list_elem_of_In. vm_compute. tauto. }
  split; [exact Hshown|].
  exact (proj2 (proj2 (displayed_rows_carry_the_badge toLowerCase parseDecimal compareCodes
                         [twoSum; mergeKLists] "" "Hard" defaultSort
                         mergeKLists Hshown))).
Defined.

(** X6 at three rows with the frequencies 85.5, 12.0 and 42.1. *)
Lemma numeric_frequencies_are_ordered_witness :
  forallb (λ q, isNumeric (parseDecimal (Frequency q)))
    [twoSum; twoSumAgain; mergeKLists] = true
  ∧ StronglySorted
      (λ a b, ¬ ltNumber (parseDecimal (Frequency b)) (parseDecimal (Frequency a)))
      (filteredQuestions toLowerCase parseDecimal compareCodes
         [twoSum; twoSumAgain; mergeKLists] "" "all"
         {| key := KFrequency; direction := asc |}).
Proof.
  split; [vm_compute; reflexivity|].
  apply (numeric_frequencies_are_ordered toLowerCase parseDecimal compareCodes
           [twoSum; twoSumAgain; mergeKLists] "" "all").
  vm_compute. reflexivity.
Defined.

(** X13 at the scenario's data: "Two Sum" is found by "Two Sum" and so by
    "o S". *)
Lemma longer_search_term_narrows_witness :
  foldsAscii toLowerCase
  ∧ isAscii ("Tw" +:+ "o S" +:+ "um") = true
  ∧ twoSum ∈ filteredQuestions toLowerCase parseDecimal compareCodes
               [twoSum; mergeKLists] ("Tw" +:+ "o S" +:+ "um") "all" defaultSort
  ∧ twoSum ∈ filteredQuestions toLowerCase parseDecimal compareCodes
               [twoSum; mergeKLists] "o S" "all" defaultSort.
Proof.
  assert (Hfolds : foldsAscii toLowerCase) by (intros s _; reflexivity).
  assert (Hascii : isAscii ("Tw" +:+ "o S" +:+ "um") = true)
    by (vm_compute; reflexivity).
  assert (Hshown : twoSum ∈ filteredQuestions toLowerCase parseDecimal compareCodes
                              [twoSum; mergeKLists] ("Tw" +:+ "o S" +:+ "um")
                              "all" defaultSort).
  { apply list_elem_of_In. vm_compute. tauto. }
  split; [exact Hfolds|]. split; [exact Hascii|]. split; [exact Hshown|].
  exact (longer_search_term_narrows toLowerCase parseDecimal compareCodes
           [twoSum; mergeKLists] "Tw" "o S" "um" "all" defaultSort twoSum
           Hfolds Hascii Hshown).
Defined.

(** X5 at three rows of which two share the frequency 85.5. *)
Lemma frequency_sort_is_stable_witness :
  forallb (λ q, isNumeric (parseDecimal (Frequency q)))
    [twoSum; mergeKLists; withCompleted twoSum true] = true
  ∧ filter (λ q, sameNumber (parseDecimal (Frequency q)) (parseDecimal "85.5")
                 = true)
      (filteredQuestions toLowerCase parseDecimal compareCodes
         [twoSum; mergeKLists; withCompleted twoSum true] "" "all"
         {| key := KFrequency; direction := desc |})
    = [twoSum; withCompleted twoSum true].
Proof.
  assert (Hnumeric : forallb (λ q, isNumeric (parseDecimal (Frequency q)))
                       [twoSum; mergeKLists; withCompleted twoSum true] = true)
    by (vm_compute; reflexivity).
  split; [exact Hnumeric|].
  rewrite (proj1 (frequency_sort_is_stable toLowerCase parseDecimal compareCodes
                    [twoSum; mergeKLists; withCompleted twoSum true] "" "all"
                    desc) Hnumeric (parseDecimal "85.5")).
  vm_compute. reflexivity.
Defined.

(** X16 at the scenario's data and a title it does not have. *)
Lemma toggle_of_absent_title_witness :
  ("Three Sum" ∉ (Title <$> questions freshApp))
  ∧ questions (toggleQuestion jsonStringify "Three Sum" freshApp)
    = questions freshApp.
Proof.
  assert (Habsent : "Three Sum" ∉ (Title <$> questions freshApp)).
  { rewrite list_elem_of_In. vm_compute. intuition discriminate. }
  split; [exact Habsent|].
  exact (proj1 (toggle_of_absent_title jsonStringify "Three Sum" freshApp Habsent)).
Defined.

(** X10 after the sample history and a click on "Two Sum". *)
Lemma progress_survives_reload_witness :
  jsonParse
    (jsonStringify
       (completedQuestions
          (questions
             (toggleQuestion jsonStringify "Two Sum"
                (run jsonParse jsonStringify sampleHistory (initialApp ∅))))))
  = inr (completedQuestions
           (questions
              (toggleQuestion jsonStringify "Two Sum"
                 (run jsonParse jsonStringify sampleHistory (initialApp ∅)))))
  ∧ questions
      (loadQuestions jsonParse [twoSum; mergeKLists]
         (initialApp
            (localStorage
               (toggleQuestion jsonStringify "Two Sum"
                  (run jsonParse jsonStringify sampleHistory (initialApp ∅))))))
    = [withCompleted twoSum true; withCompleted mergeKLists true].
Proof.
  split; [vm_compute; reflexivity|].
  rewrite (progress_survives_reload jsonParse jsonStringify ∅ sampleHistory
             "Two Sum" [twoSum; mergeKLists]).
  - vm_compute. reflexivity.
  - vm_compute. reflexivity.
  - vm_compute. discriminate.
  - vm_compute. reflexivity.
Defined.

(** X11 at the scenario's data and a file with a foreign title. *)
Lemma import_of_valid_json_witness :
  jsonParse foreignFile
  = inr (<["Two Sum" := true]> {[ "Retired Question" := true ]})
  ∧ importProgress jsonParse jsonStringify (Some foreignFile)
      (importProgress jsonParse jsonStringify (Some foreignFile) freshApp)
    = importProgress jsonParse jsonStringify (Some foreignFile) freshApp.
Proof.
  assert (Hparse : jsonParse foreignFile
                   = inr (<["Two Sum" := true]> {[ "Retired Question" := true ]})).
  { vm_compute. reflexivity. }
  split; [exact Hparse|].
  exact (proj1 (proj2 (proj2 (proj2 (proj2
           (import_of_valid_json jsonParse jsonStringify foreignFile _
              freshApp Hparse)))))).
Defined.

(** X12 at the scenario's data and a file with a foreign title. *)
Lemma import_survives_reload_witness :
  jsonParse foreignFile
  = inr (<["Two Sum" := true]> {[ "Retired Question" := true ]})
  ∧ questions
      (loadQuestions jsonParse [twoSum; mergeKLists]
         (initialApp
            (localStorage
               (importProgress jsonParse jsonStringify (Some foreignFile)
                  freshApp))))
    = questions
        (importProgress jsonParse jsonStringify (Some foreignFile) freshApp).
Proof.
  assert (Hparse : jsonParse foreignFile
                   = inr (<["Two Sum" := true]> {[ "Retired Question" := true ]})).
  { vm_compute. reflexivity. }
  split; [exact Hparse|].
  apply (import_survives_reload jsonParse jsonStringify foreignFile
           (<["Two Sum" := true]> {[ "Retired Question" := true ]})
           freshApp [twoSum; mergeKLists] Hparse).
  - vm_compute. reflexivity.
  - vm_compute. discriminate.
  - vm_compute. reflexivity.
Defined.

(** X15 at a storage that holds a text which is no JSON. *)
Lemma load_of_unusable_storage_witness :
  jsonParse "{}" = inr ∅
  ∧ loadQuestions jsonParse [twoSum; mergeKLists]
      (initialApp {[ slot := "{Two Sum: yes" ]})
    = initialApp {[ slot := "{Two Sum: yes" ]}.
Proof.
  assert (Hempty : jsonParse "{}" = inr ∅) by (vm_compute; reflexivity).
  split; [exact Hempty|].
  destruct (load_of_unusable_storage jsonParse
              {[ slot := "{Two Sum: yes" ]} [twoSum; mergeKLists] Hempty)
    as [_ Hbroken].
  apply (Hbroken "{Two Sum: yes" SyntaxError).
  - vm_compute. reflexivity.
  - discriminate.
  - vm_compute. reflexivity.
Defined.

(** ** The percentage is a percentage *)

Lemma progress_percentageOf (qs : list Question) :
  length qs ≠ 0%nat →
  progress qs
  = percentageOf (Z.of_nat (length (filter (λ q, completed q) qs)))
      (Z.of_nat (length qs)).
Proof. unfold progress. by destruct qs. Qed.



Lemma isWholePercent_spec (p : float) :
  isWholePercent p = true →
  ∃ k : nat, (k ≤ 100)%nat ∧ PrimFloat.eqb p (Number_of_nat k) = true.
Proof.
  unfold isWholePercent. rewrite existsb_exists. intros (x & Hx & Hp).
  assert (Htable : wholePercents = (λ k, Number_of_nat k) <$> seq 0 101)
    by (vm_compute; reflexivity).
  rewrite Htable in Hx. apply list_elem_of_In, list_elem_of_fmap in Hx.
  destruct Hx as (k & -> & Hk%list_elem_of_In%in_seq).
  exists k. split; [lia|done].
Qed.

(** What the table says about the counts of one total. *)
Lemma countsChecked_spec (fuel : nat) (count total : Z) (previous : float) :
  countsChecked fuel count total previous = true →
  (∀ i : nat, (i < fuel)%nat →
     isWholePercent (percentageOf (count + Z.of_nat i) total) = true
     ∧ nearestChecked (percentageOf (count + Z.of_nat i) total)
         (count + Z.of_nat i) total = true
     ∧ PrimFloat.leb
         (if i is O then previous
          else percentageOf (count + Z.of_nat i - 1) total)
         (percentageOf (count + Z.of_nat i) total) = true)
  ∧ PrimFloat.eqb
      (if fuel is O then previous
       else percentageOf (count + Z.of_nat fuel - 1) total) 100 = true.
Proof.
  revert count previous.
  induction fuel as [|fuel IH]; intros count previous; simpl.
  { intros Hlast. split; [intros i Hi; lia|done]. }
  rewrite !andb_true_iff. intros [[[Hwhole Hnearest] Hle] Hrest].
  destruct (IH _ _ Hrest) as [Hcounts Hlast]. split.
  - intros [|i] Hi.
    + rewrite Z.add_0_r. done.
    + destruct (Hcounts i ltac:(lia)) as (Hw & Hn & Hl).
      replace (count + Z.of_nat (S i))%Z with (count + 1 + Z.of_nat i)%Z by lia.
      split; [done|]. split; [done|].
      destruct i as [|i]; [|done].
      replace (count + 1 + Z.of_nat 0 - 1)%Z with count by lia. done.
  - destruct fuel as [|fuel].
    + replace (count + Z.of_nat 1 - 1)%Z with count by lia. done.
    + replace (count + Z.of_nat (S (S fuel)) - 1)%Z
        with (count + 1 + Z.of_nat (S fuel) - 1)%Z by lia. done.
Qed.

Lemma percentage_table_checked : forallb totalChecked (seq 1 300) = true.
Proof. vm_cast_no_check (@eq_refl bool true). Qed.

Lemma totalChecked_upto (total : nat) :
  (1 ≤ total ≤ 300)%nat → totalChecked total = true.
Proof.
  intros Htotal. pose proof percentage_table_checked as Htable.
  rewrite forallb_forall in Htable. apply Htable, in_seq. lia.
Qed.

Lemma count_none (qs : list Question) :
  Forall (λ q, completed q = false) qs →
  length (filter (λ q, completed q) qs) = 0%nat.
Proof.
  induction 1 as [|q qs Hq Hqs IH]; [done|].
  rewrite filter_cons_False; [done|]. rewrite Hq. exact id.
Qed.

Lemma count_all (qs : list Question) :
  Forall (λ q, completed q = true) qs →
  length (filter (λ q, completed q) qs) = length qs.
Proof.
  induction 1 as [|q qs Hq Hqs IH]; [done|].
  rewrite filter_cons_True by (rewrite Hq; exact I). simpl. by rewrite IH.
Qed.

(** X17: for a record set of at most 300 records, the percentage shown is
    a whole number from 0 to 100; it is 0 when no record is completed and
    100 when all are, and one more completed record never lowers it. *)
Theorem progress_is_a_percentage (qs : list Question) :
  (length qs ≤ 300)%nat →
  (∃ k : nat, (k ≤ 100)%nat
              ∧ PrimFloat.eqb (progress qs) (Number_of_nat k) = true)
  ∧ (Forall (λ q, completed q = false) qs →
     PrimFloat.eqb (progress qs) 0 = true)
  ∧ (qs ≠ [] → Forall (λ q, completed q = true) qs →
     PrimFloat.eqb (progress qs) 100 = true)
  ∧ (∀ qs' : list Question, length qs' = length qs →
       length (filter (λ q, completed q) qs')
       = S (length (filter (λ q, completed q) qs)) →
       PrimFloat.leb (progress qs) (progress qs') = true).
Proof.
  intros Hsize.
  pose proof (length_filter (λ q, completed q) qs) as Hcount.
  destruct (decide (length qs = 0%nat)) as [Hnil|Hpos].
  { apply length_zero_iff_nil in Hnil. subst qs.
    split; [exists 0%nat; split; [lia|by vm_compute]|].
    split; [by vm_compute|]. split; [done|].
    intros qs' Hlen Hmore.
    pose proof (length_filter (λ q, completed q) qs'). simpl in *. lia. }
  assert (Htotal : totalChecked (length qs) = true)
    by (apply totalChecked_upto; lia).
  unfold totalChecked in Htotal. apply andb_true_iff in Htotal as [Hzero Hcounts].
  apply countsChecked_spec in Hcounts as [Hcounts Hlast].
  rewrite !(progress_percentageOf qs) by done.
  split; [|split; [|split]].
  - destruct (Hcounts (length (filter (λ q, completed q) qs)) ltac:(lia))
      as (Hwhole & _ & _).
    rewrite Z.add_0_l in Hwhole. by apply isWholePercent_spec.
  - intros Hnone. by rewrite count_none.
  - intros _ Hall. rewrite count_all by done.
    replace (0 + Z.of_nat (S (length qs)) - 1)%Z with (Z.of_nat (length qs))
      in Hlast by lia.
    done.
  - intros qs' Hlen Hmore.
    pose proof (length_filter (λ q, completed q) qs') as Hcount'.
    rewrite (progress_percentageOf qs'), Hlen, Hmore by lia.
    destruct (Hcounts (S (length (filter (λ q, completed q) qs))) ltac:(lia))
      as (_ & _ & Hle).
    replace (0 + Z.of_nat (S (length (filter (λ q, completed q) qs))) - 1)%Z
      with (Z.of_nat (length (filter (λ q, completed q) qs))) in Hle by lia.
    by rewrite Z.add_0_l in Hle.
Qed.

(** X17 at 29 completed records of 200. *)
Lemma progress_is_a_percentage_witness :
  (length (sampleProgress 29 200) ≤ 300)%nat
  ∧ ∃ k : nat, (k ≤ 100)%nat
               ∧ PrimFloat.eqb (progress (sampleProgress 29 200))
                   (Number_of_nat k) = true.
Proof.
  assert (Hsize : (length (sampleProgress 29 200) ≤ 300)%nat).
  { apply Nat.leb_le. vm_compute. reflexivity. }
  split; [exact Hsize|].
  exact (proj1 (progress_is_a_percentage (sampleProgress 29 200) Hsize)).
Defined.

(** ** The percentage and the exact quotient *)




(** ** The count of completed records *)

(** X18: ticking the checkbox of a record whose title no other record
    carries changes the number of completed records by exactly one: one
    more when the record was open, one less when it was completed. *)
Theorem toggle_moves_the_count_by_one (JSON_stringify : gmap string bool → string)
    (title : string) (st : App) (q : Question) :
  filter (λ r, Title r = title) (questions st) = [q] →
  (length (filter (λ r, completed r)
             (questions (toggleQuestion JSON_stringify title st)))
   + (if completed q then 1 else 0)
   = length (filter (λ r, completed r) (questions st))
     + (if completed q then 0 else 1))%nat.
Proof.
  change (questions (toggleQuestion JSON_stringify title st))
    with (flipIf title <$> questions st).
  induction (questions st) as [|x qs IH]; [done|].
  rewrite fmap_cons. unfold flipIf at 1.
  destruct (decide (Title x = title)) as [Hx|Hx].
  - rewrite filter_cons_True by done. intros [= -> Hrest].
    rewrite flipIf_absent by done.
    destruct (completed q) eqn:Hcq.
    + rewrite (filter_cons_False (λ r, completed r) (withCompleted q _))
        by exact id.
      rewrite (filter_cons_True (λ r, completed r) q)
        by (rewrite Hcq; exact I).
      simpl. lia.
    + rewrite (filter_cons_True (λ r, completed r) (withCompleted q _))
        by exact I.
      rewrite (filter_cons_False (λ r, completed r) q)
        by (rewrite Hcq; exact id).
      simpl. lia.
  - rewrite filter_cons_False by done. intros Hrest.
    specialize (IH Hrest).
    destruct (completed x) eqn:Hcx.
    + rewrite !(filter_cons_True (λ r, completed r)) by (rewrite Hcx; exact I).
      simpl. lia.
    + rewrite !(filter_cons_False (λ r, completed r)) by (rewrite Hcx; exact id).
      done.
Qed.

(** X18 at the scenario's data and "Two Sum". *)
Lemma toggle_moves_the_count_by_one_witness :
  filter (λ r, Title r = "Two Sum") (questions freshApp) = [twoSum]
  ∧ (length (filter (λ r, completed r)
               (questions (toggleQuestion jsonStringify "Two Sum" freshApp)))
     + 0
     = length (filter (λ r, completed r) (questions freshApp)) + 1)%nat.
Proof.
  assert (Honly : filter (λ r, Title r = "Two Sum") (questions freshApp)
                  = [twoSum]) by (vm_compute; reflexivity).
  split; [exact Honly|].
  exact (toggle_moves_the_count_by_one jsonStringify "Two Sum" freshApp twoSum
           Honly).
Defined.

(** ** Sorting by a text column *)

Lemma isPositive_inject_Z (z : Z) :
  isPositive (Finite (inject_Z z)) = true ↔ (0 < z)%Z.
Proof.
  rewrite isPositive_Finite. unfold Qlt, inject_Z. simpl. lia.
Qed.

(** The sort by the sign of an integer comparison of texts, when that
    comparison is consistent. *)
Lemma sort_by_text (compareTexts : string → string → Z)
    (text : Question → string) (comparefn : Question → Question → Number)
    (l : list Question) :
  (∀ a b, (0 < compareTexts a b)%Z → (compareTexts b a < 0)%Z) →
  (∀ a b c, (compareTexts a b ≤ 0)%Z → (compareTexts b c ≤ 0)%Z →
            (compareTexts a c ≤ 0)%Z) →
  (∀ a b, comparefn a b = Finite (inject_Z (compareTexts (text a) (text b)))) →
  StronglySorted (λ a b, (compareTexts (text a) (text b) ≤ 0)%Z)
    (sort comparefn l).
Proof.
  intros Hasym Htrans Hcompare.
  assert (Hle : ∀ a b, isPositive (comparefn a b) = false
                       ↔ (compareTexts (text a) (text b) ≤ 0)%Z).
  { intros a b. rewrite Hcompare, <- not_true_iff_false, isPositive_inject_Z.
    lia. }
  eapply StronglySorted_impl;
    [|apply (sort_weakly comparefn (λ _, True))].
  - intros a b. apply Hle.
  - intros x y _ _ Hxy. apply Hle.
    rewrite Hcompare, isPositive_inject_Z in Hxy.
    specialize (Hasym _ _ Hxy). lia.
  - intros x y z _ _ _. rewrite !Hle. apply Htrans.
  - by apply Forall_true.
Qed.

Section ByText.
Context (String_toLowerCase : string → string).
Context (parseFloat : string → Number) (localeCompare : string → string → Z).

Abbreviation filteredQuestions :=
  (filteredQuestions String_toLowerCase parseFloat localeCompare).
Abbreviation compareQuestions := (compareQuestions parseFloat localeCompare).

(** X19: when [localeCompare] is a consistent comparison (a positive
    result one way is a negative one the other way, and "not after" is
    transitive), the sort by title or by difficulty orders the displayed
    list by it: ascending, no record stands before one whose text compares
    smaller; descending, none before one whose text compares larger. *)
Theorem text_columns_are_ordered (qs : list Question)
    (searchTerm difficultyFilter : string) :
  (∀ a b, (0 < localeCompare a b)%Z → (localeCompare b a < 0)%Z) →
  (∀ a b c, (localeCompare a b ≤ 0)%Z → (localeCompare b c ≤ 0)%Z →
            (localeCompare a c ≤ 0)%Z) →
  StronglySorted (λ a b, (localeCompare (Title a) (Title b) ≤ 0)%Z)
    (filteredQuestions qs searchTerm difficultyFilter
       {| key := KTitle; direction := asc |})
  ∧ StronglySorted (λ a b, (localeCompare (Title b) (Title a) ≤ 0)%Z)
      (filteredQuestions qs searchTerm difficultyFilter
         {| key := KTitle; direction := desc |})
  ∧ StronglySorted (λ a b, (localeCompare (Difficulty a) (Difficulty b) ≤ 0)%Z)
      (filteredQuestions qs searchTerm difficultyFilter
         {| key := KDifficulty; direction := asc |})
  ∧ StronglySorted (λ a b, (localeCompare (Difficulty b) (Difficulty a) ≤ 0)%Z)
      (filteredQuestions qs searchTerm difficultyFilter
         {| key := KDifficulty; direction := desc |}).
Proof.
  intros Hasym Htrans.
  rewrite !(filteredQuestions_selected String_toLowerCase parseFloat localeCompare).
  assert (Hasym' : ∀ a b, (0 < localeCompare b a)%Z → (localeCompare a b < 0)%Z)
    by (intros a b; apply Hasym).
  assert (Htrans' : ∀ a b c, (localeCompare b a ≤ 0)%Z →
                      (localeCompare c b ≤ 0)%Z → (localeCompare c a ≤ 0)%Z)
    by (intros a b c Hba Hcb; by apply (Htrans c b a)).
  split; [|split; [|split]].
  - by apply (sort_by_text localeCompare Title).
  - by apply (sort_by_text (λ a b, localeCompare b a) Title).
  - by apply (sort_by_text localeCompare Difficulty).
  - by apply (sort_by_text (λ a b, localeCompare b a) Difficulty).
Qed.
End ByText.

(** The comparison of character codes is consistent. *)
Lemma string_compare_le_trans (a b c : string) :
  String.compare a b ≠ Gt → String.compare b c ≠ Gt →
  String.compare a c ≠ Gt.
Proof.
  revert b c. induction a as [|x a IH]; intros [|y b] [|z c]; simpl; try done.
  unfold Ascii.compare.
  destruct (N.compare_spec (Ascii.N_of_ascii x) (Ascii.N_of_ascii y))
    as [Hxy|Hxy|Hxy]; [| |done];
    destruct (N.compare_spec (Ascii.N_of_ascii y) (Ascii.N_of_ascii z))
      as [Hyz|Hyz|Hyz]; try done.
  - rewrite Hxy, Hyz, N.compare_refl. apply IH.
  - intros _ _. rewrite Hxy. by rewrite (proj2 (N.compare_lt_iff _ _) Hyz).
  - intros _ _. rewrite <- Hyz. by rewrite (proj2 (N.compare_lt_iff _ _) Hxy).
  - intros _ _.
    by rewrite (proj2 (N.compare_lt_iff _ _) (N.lt_trans _ _ _ Hxy Hyz)).
Qed.

Lemma compareCodes_consistent :
  (∀ a b, (0 < compareCodes a b)%Z → (compareCodes b a < 0)%Z)
  ∧ (∀ a b c, (compareCodes a b ≤ 0)%Z → (compareCodes b c ≤ 0)%Z →
              (compareCodes a c ≤ 0)%Z).
Proof.
  unfold compareCodes. split.
  - intros a b. rewrite (String.compare_antisym b a).
    by destruct (String.compare a b).
  - intros a b c Hab Hbc.
    pose proof (string_compare_le_trans a b c) as Htrans.
    destruct (String.compare a b), (String.compare b c),
             (String.compare a c); try done; by destruct Htrans.
Qed.

(** X19 at the scenario's data and the comparison of character codes. *)
Lemma text_columns_are_ordered_witness :
  (∀ a b, (0 < compareCodes a b)%Z → (compareCodes b a < 0)%Z)
  ∧ (∀ a b c, (compareCodes a b ≤ 0)%Z → (compareCodes b c ≤ 0)%Z →
              (compareCodes a c ≤ 0)%Z)
  ∧ StronglySorted (λ a b, (compareCodes (Title a) (Title b) ≤ 0)%Z)
      (filteredQuestions toLowerCase parseDecimal compareCodes
         [twoSum; mergeKLists; lowerCaseEasy] "" "all"
         {| key := KTitle; direction := asc |}).
Proof.
  split; [exact (proj1 compareCodes_consistent)|].
  split; [exact (proj2 compareCodes_consistent)|].
  exact (proj1 (text_columns_are_ordered toLowerCase parseDecimal compareCodes
                  [twoSum; mergeKLists; lowerCaseEasy] "" "all"
                  (proj1 compareCodes_consistent)
                  (proj2 compareCodes_consistent))).
Defined.
